(** * TreeTime command-line wrapper ([timetree_inference.py])

    A shallow embedding of the wrapper script and of the parts of the
    Python run time it relies on ([str.strip], [str.split], [float],
    [int], [argparse]), followed by the properties of the wrapper.

    Strings are Rocq strings; a character is a code point below 256.
    Floating-point numbers are IEEE binary64 values, written as
    [spec_float] with precision 53 and maximal exponent 1024. *)

From Stdlib Require Import ZArith List Ascii String Bool Lia.
From Stdlib Require Import Floats.SpecFloat.
From stdpp Require Import gmap strings.

Set Warnings "-register-all".

Local Open Scope string_scope.
Local Open Scope Z_scope.
Local Open Scope list_scope.

(** ** Python built-ins *)

Module Py.

(** Binary64 operations. *)
Definition prec : Z := 53.
Definition emax : Z := 1024.
Definition float : Type := spec_float.
Definition float_lt (x y : float) : bool := SFltb x y.

(** [str.isspace] on one character. *)
Definition is_space (c : ascii) : bool :=
  let n := nat_of_ascii c in
  ((9 <=? n) && (n <=? 13) || (28 <=? n) && (n <=? 32)
   || (n =? 133) || (n =? 160))%nat.

Fixpoint lstrip (s : string) : string :=
  match s with
  | String c r => if is_space c then lstrip r else s
  | EmptyString => EmptyString
  end.

(** Removes trailing white space: a character is kept when something
    that is not white space follows it or when it is itself not white
    space. *)
Fixpoint rstrip (s : string) : string :=
  match s with
  | String c r =>
      match rstrip r with
      | EmptyString => if is_space c then EmptyString else String c EmptyString
      | r' => String c r'
      end
  | EmptyString => EmptyString
  end.

(** [s.strip()] *)
Definition strip (s : string) : string := rstrip (lstrip s).

(** The white space that [float] and [int] pass over at both ends of
    their argument: the blanks of C and the two white-space characters
    above 127.  The separators 28 to 31, white space for [str.strip],
    are not among them. *)
Definition is_blank (c : ascii) : bool :=
  let n := nat_of_ascii c in
  ((9 <=? n) && (n <=? 13) || (n =? 32) || (n =? 133) || (n =? 160))%nat.

Fixpoint skip_blanks (s : string) : string :=
  match s with
  | String c r => if is_blank c then skip_blanks r else s
  | EmptyString => EmptyString
  end.

Fixpoint drop_blanks (s : string) : string :=
  match s with
  | String c r =>
      match drop_blanks r with
      | EmptyString => if is_blank c then EmptyString else String c EmptyString
      | r' => String c r'
      end
  | EmptyString => EmptyString
  end.

Definition trim (s : string) : string := drop_blanks (skip_blanks s).

(** [s.split(sep)] for a one-character separator: never empty. *)
Fixpoint split (sep : ascii) (s : string) : list string :=
  match s with
  | EmptyString => [EmptyString]
  | String c r =>
      if Ascii.eqb c sep then EmptyString :: split sep r
      else match split sep r with
           | h :: t => String c h :: t
           | [] => [String c EmptyString]
           end
  end.

(** [l[:n]] *)
Definition slice_to {A} (n : nat) (l : list A) : list A := firstn n l.

(** [s[:n]] *)
Fixpoint str_slice_to (n : nat) (s : string) : string :=
  match n, s with
  | S n', String c r => String c (str_slice_to n' r)
  | _, _ => EmptyString
  end.

(** [len(s)] *)
Definition len (s : string) : Z := Z.of_nat (String.length s).

(** [sep.join(l)] *)
Fixpoint join (sep : string) (l : list string) : string :=
  match l with
  | [] => EmptyString
  | [x] => x
  | x :: r => x +:+ sep +:+ join sep r
  end.

(** [s in l] for a list of strings. *)
Definition str_in (s : string) (l : list string) : bool :=
  existsb (String.eqb s) l.

(** [a < b] on strings: lexicographic on code points. *)
Fixpoint str_lt (a b : string) : bool :=
  match a, b with
  | _, EmptyString => false
  | EmptyString, String _ _ => true
  | String x a', String y b' =>
      let nx := nat_of_ascii x in
      let ny := nat_of_ascii y in
      if (nx <? ny)%nat then true
      else if (ny <? nx)%nat then false
      else str_lt a' b'
  end.

(** *** Decimal digits *)

Definition is_digit (c : ascii) : bool :=
  let n := nat_of_ascii c in ((48 <=? n) && (n <=? 57))%nat.

Definition digit_val (c : ascii) : N := N.of_nat (nat_of_ascii c - 48).

(** [digits acc k s] reads the longest run of digits at the head of [s],
    a single underscore being allowed between two digits.  [acc] is the
    value read so far and [k] the number of digits read so far. *)
Fixpoint digits (acc : N) (k : nat) (s : string) : N * nat * string :=
  match s with
  | String c r =>
      if is_digit c then digits (acc * 10 + digit_val c)%N (S k) r
      else if Ascii.eqb c "_" then
        match k, r with
        | S _, String d r' =>
            if is_digit d
            then digits (acc * 10 + digit_val d)%N (S k) r'
            else (acc, k, s)
        | _, _ => (acc, k, s)
        end
      else (acc, k, s)
  | EmptyString => (acc, k, s)
  end.

(** [digitpart s]: a non-empty run of digits, with its value, its
    number of digits and the rest of the string. *)
Definition digitpart (s : string) : option (N * nat * string) :=
  match digits 0%N 0%nat s with
  | (_, O, _) => None
  | r => Some r
  end.

Definition lower (c : ascii) : ascii :=
  let n := nat_of_ascii c in
  if ((65 <=? n) && (n <=? 90))%nat then ascii_of_nat (n + 32) else c.

Fixpoint str_lower (s : string) : string :=
  match s with
  | String c r => String (lower c) (str_lower r)
  | EmptyString => EmptyString
  end.

(** An optional sign: [true] for minus. *)
Definition sign (s : string) : bool * string :=
  match s with
  | String "-" r => (true, r)
  | String "+" r => (false, r)
  | _ => (false, s)
  end.

(** *** [float(s)] *)

(** The binary64 value nearest to [m * 10^e] (ties to even), with sign
    [neg]. *)
Definition float_of_decimal (neg : bool) (m : N) (e : Z) : float :=
  match m with
  | N0 => S754_zero neg
  | Npos p =>
      if 0 <=? e then
        binary_round prec emax neg (Z.to_pos (Zpos p * 10 ^ e)) 0
      else
        let '(q, e', l) :=
          SFdiv_core_binary prec emax (Zpos p) 0 (10 ^ (- e)) 0 in
        binary_round_aux prec emax neg q e' l
  end.

(** The exponent part of a float literal: empty, or [e]/[E], an optional
    sign and a digit part, up to the end of the string. *)
Definition exponent (s : string) : option Z :=
  match s with
  | EmptyString => Some 0
  | String c r =>
      if Ascii.eqb (lower c) "e" then
        let '(neg, r1) := sign r in
        match digitpart r1 with
        | Some (v, _, EmptyString) =>
            Some (if neg then - Z.of_N v else Z.of_N v)
        | _ => None
        end
      else None
  end.

(** [number [exponent]] of Python's float grammar, as mantissa and
    decimal exponent. *)
Definition floatnumber (s : string) : option (N * Z) :=
  let '(ip, ki, r) := digits 0%N 0%nat s in
  match r with
  | String "." r1 =>
      let '(m, kf, r2) := digits ip 0%nat r1 in
      match ki, kf with
      | O, O => None
      | _, _ =>
          match exponent r2 with
          | Some e => Some (m, e - Z.of_nat kf)
          | None => None
          end
      end
  | _ =>
      match ki with
      | O => None
      | _ => match exponent r with
             | Some e => Some (ip, e)
             | None => None
             end
      end
  end.

(** [float(s)]: [None] stands for [ValueError]. *)
Definition float_of_string (s : string) : option float :=
  let '(neg, r) := sign (trim s) in
  let w := str_lower r in
  if String.eqb w "inf" || String.eqb w "infinity" then Some (S754_infinity neg)
  else if String.eqb w "nan" then Some S754_nan
  else match floatnumber r with
       | Some (m, e) => Some (float_of_decimal neg m e)
       | None => None
       end.

(** The literal [1e-5]. *)
Definition float_1e_5 : float := S754_finite false 5902958103587057 (-69).

(** *** [int(s)] in base 10: [None] stands for [ValueError]. *)
Definition int_of_string (s : string) : option Z :=
  let '(neg, r) := sign (trim s) in
  match digitpart r with
  | Some (v, _, EmptyString) => Some (if neg then - Z.of_N v else Z.of_N v)
  | _ => None
  end.

(** *** [str(n)] and ['%03d' % n] *)

Definition digit_char (d : N) : ascii := ascii_of_N (48 + d).

(** The decimal digits of [n], most significant first, in front of
    [acc]; [fuel] bounds the number of digits. *)
Fixpoint digits_of (fuel : nat) (n : N) (acc : string) : string :=
  match fuel with
  | O => acc
  | S f =>
      let acc' := String (digit_char (n mod 10)) acc in
      if (n <? 10)%N then acc' else digits_of f (n / 10)%N acc'
  end.

Definition str_of_N (n : N) : string :=
  digits_of (S (N.to_nat (N.log2 n))) n EmptyString.

(** [str(z)] for an integer. *)
Definition str_of_int (z : Z) : string :=
  match z with
  | Zneg p => String "-" (str_of_N (Npos p))
  | _ => str_of_N (Z.to_N z)
  end.

Fixpoint zeros (k : nat) : string :=
  match k with
  | O => EmptyString
  | S k' => String "0" (zeros k')
  end.

(** ['%03d' % n] for a count: at least three digits, padded with zeros. *)
Definition fmt_03d (n : nat) : string :=
  let s := str_of_N (N.of_nat n) in
  zeros (3 - String.length s) +:+ s.

End Py.

(** ** The command line *)

(** [params.relax]: [False] by default, [True] after a bare [--relax],
    else the list of the strings given. *)
Inductive Relax :=
| RelaxBool (b : bool)
| RelaxList (l : list string).

(** The namespace that [parse_args] returns.  The three required
    options have no default ([None]). *)
Record Params := {
  aln : option string;
  tree : option string;
  dates : option string;
  infer_gtr : bool;
  reroot : string;
  optimize_branch_length : bool;
  keep_polytomies : bool;
  relax : Relax;
  max_iter : Z;
  verbose : Z;
  Tc : string;
  plot : bool
}.

Definition set_aln v p :=
  {| aln := v; tree := tree p; dates := dates p; infer_gtr := infer_gtr p;
     reroot := reroot p; optimize_branch_length := optimize_branch_length p;
     keep_polytomies := keep_polytomies p; relax := relax p;
     max_iter := max_iter p; verbose := verbose p; Tc := Tc p; plot := plot p |}.
Definition set_tree v p :=
  {| aln := aln p; tree := v; dates := dates p; infer_gtr := infer_gtr p;
     reroot := reroot p; optimize_branch_length := optimize_branch_length p;
     keep_polytomies := keep_polytomies p; relax := relax p;
     max_iter := max_iter p; verbose := verbose p; Tc := Tc p; plot := plot p |}.
Definition set_dates v p :=
  {| aln := aln p; tree := tree p; dates := v; infer_gtr := infer_gtr p;
     reroot := reroot p; optimize_branch_length := optimize_branch_length p;
     keep_polytomies := keep_polytomies p; relax := relax p;
     max_iter := max_iter p; verbose := verbose p; Tc := Tc p; plot := plot p |}.
Definition set_infer_gtr v p :=
  {| aln := aln p; tree := tree p; dates := dates p; infer_gtr := v;
     reroot := reroot p; optimize_branch_length := optimize_branch_length p;
     keep_polytomies := keep_polytomies p; relax := relax p;
     max_iter := max_iter p; verbose := verbose p; Tc := Tc p; plot := plot p |}.
Definition set_reroot v p :=
  {| aln := aln p; tree := tree p; dates := dates p; infer_gtr := infer_gtr p;
     reroot := v; optimize_branch_length := optimize_branch_length p;
     keep_polytomies := keep_polytomies p; relax := relax p;
     max_iter := max_iter p; verbose := verbose p; Tc := Tc p; plot := plot p |}.
Definition set_optimize_branch_length v p :=
  {| aln := aln p; tree := tree p; dates := dates p; infer_gtr := infer_gtr p;
     reroot := reroot p; optimize_branch_length := v;
     keep_polytomies := keep_polytomies p; relax := relax p;
     max_iter := max_iter p; verbose := verbose p; Tc := Tc p; plot := plot p |}.
Definition set_keep_polytomies v p :=
  {| aln := aln p; tree := tree p; dates := dates p; infer_gtr := infer_gtr p;
     reroot := reroot p; optimize_branch_length := optimize_branch_length p;
     keep_polytomies := v; relax := relax p;
     max_iter := max_iter p; verbose := verbose p; Tc := Tc p; plot := plot p |}.
Definition set_relax v p :=
  {| aln := aln p; tree := tree p; dates := dates p; infer_gtr := infer_gtr p;
     reroot := reroot p; optimize_branch_length := optimize_branch_length p;
     keep_polytomies := keep_polytomies p; relax := v;
     max_iter := max_iter p; verbose := verbose p; Tc := Tc p; plot := plot p |}.
Definition set_max_iter v p :=
  {| aln := aln p; tree := tree p; dates := dates p; infer_gtr := infer_gtr p;
     reroot := reroot p; optimize_branch_length := optimize_branch_length p;
     keep_polytomies := keep_polytomies p; relax := relax p;
     max_iter := v; verbose := verbose p; Tc := Tc p; plot := plot p |}.
Definition set_verbose v p :=
  {| aln := aln p; tree := tree p; dates := dates p; infer_gtr := infer_gtr p;
     reroot := reroot p; optimize_branch_length := optimize_branch_length p;
     keep_polytomies := keep_polytomies p; relax := relax p;
     max_iter := max_iter p; verbose := v; Tc := Tc p; plot := plot p |}.
Definition set_Tc v p :=
  {| aln := aln p; tree := tree p; dates := dates p; infer_gtr := infer_gtr p;
     reroot := reroot p; optimize_branch_length := optimize_branch_length p;
     keep_polytomies := keep_polytomies p; relax := relax p;
     max_iter := max_iter p; verbose := verbose p; Tc := v; plot := plot p |}.
Definition set_plot v p :=
  {| aln := aln p; tree := tree p; dates := dates p; infer_gtr := infer_gtr p;
     reroot := reroot p; optimize_branch_length := optimize_branch_length p;
     keep_polytomies := keep_polytomies p; relax := relax p;
     max_iter := max_iter p; verbose := verbose p; Tc := Tc p; plot := v |}.

(** *** [argparse]

    The part of [argparse] that the wrapper uses: long options, given
    in full or by an unambiguous prefix, with the value in the next
    argument or after [=]; [store], [store_true] and [nargs='*']
    actions; conversion by [type]; required options.  The parser has no
    positional arguments.  Every way of not returning a namespace (a
    usage error, [--help]) is [None].  Two forms are outside this
    model, as what [argparse] makes of them depends on its version,
    and are [None] as well: the separator [--], and [--] as the value
    after [=] ([--opt=--]). *)
Module Argparse.

(** What an option does with the namespace. *)
Inductive action :=
| store (conv : string -> option (Params -> Params))
| store_true (set : Params -> Params)
| store_star (set : list string -> Params -> Params)
| help.

(** One [add_argument]. *)
Record argument := {
  option_string : string;
  act : action;
  required : bool
}.

Definition parser : Type := list argument.

Fixpoint find_exact (ps : parser) (s : string) : option argument :=
  match ps with
  | [] => None
  | a :: r => if String.eqb (option_string a) s then Some a else find_exact r s
  end.

(** Splits at the first [=]. *)
Fixpoint split_eq (s : string) : option (string * string) :=
  match s with
  | EmptyString => None
  | String c r =>
      if Ascii.eqb c "=" then Some (EmptyString, r)
      else match split_eq r with
           | Some (a, b) => Some (String c a, b)
           | None => None
           end
  end.

Fixpoint contains (c : ascii) (s : string) : bool :=
  match s with
  | EmptyString => false
  | String d r => Ascii.eqb c d || contains c r
  end.

Fixpoint skip_digits (s : string) : string :=
  match s with
  | String c r => if Py.is_digit c then skip_digits r else s
  | EmptyString => EmptyString
  end.

(** The end of the string, or a newline just before it: the [$] of a
    regular expression. *)
Definition at_end (s : string) : bool :=
  match s with
  | EmptyString => true
  | String "010" EmptyString => true
  | _ => false
  end.

(** [\d+$] *)
Definition digits_to_end (s : string) : bool :=
  match s with
  | String d _ => Py.is_digit d && at_end (skip_digits s)
  | EmptyString => false
  end.

(** [^-\d+$|^-\d*\.\d+$] *)
Definition negative_number (s : string) : bool :=
  match s with
  | String "-" r =>
      digits_to_end r
      || match skip_digits r with
         | String "." f => digits_to_end f
         | _ => false
         end
  | _ => false
  end.

(** How one command-line argument is read. *)
Inductive kind :=
| Arg
| Opt (a : argument) (explicit : option string)
| Bad.

Definition by_prefix (ps : parser) (pre : string) (explicit : option string)
  : option kind :=
  match List.filter (fun a => String.prefix pre (option_string a)) ps with
  | [] => None
  | [a] => Some (Opt a explicit)
  | _ => Some Bad
  end.

(** [_parse_optional] *)
Definition classify (ps : parser) (s : string) : kind :=
  match s with
  | EmptyString => Arg
  | String c r =>
      if negb (Ascii.eqb c "-") then Arg
      else if String.eqb s "--" then Bad
      else match find_exact ps s with
      | Some a => Opt a None
      | None =>
          match r with
          | EmptyString => Arg
          | String c2 _ =>
              let exact_eq :=
                match split_eq s with
                | Some (o, e) =>
                    match find_exact ps o with
                    | Some a => Some (Opt a (Some e))
                    | None => None
                    end
                | None => None
                end in
              match exact_eq with
              | Some k => k
              | None =>
                  let abbreviated :=
                    if Ascii.eqb c2 "-" then
                      match split_eq s with
                      | Some (o, e) => by_prefix ps o (Some e)
                      | None => by_prefix ps s None
                      end
                    else
                      match find_exact ps (Py.str_slice_to 2 s) with
                      | Some _ => Some Bad
                      | None => by_prefix ps s None
                      end in
                  match abbreviated with
                  | Some k => k
                  | None =>
                      if negative_number s then Arg
                      else if contains " " s then Arg
                      else Bad
                  end
              end
          end
      end
  end.

(** What the parser is waiting for. *)
Inductive mode :=
| Idle
| NeedOne (o : string) (conv : string -> option (Params -> Params))
| Star (o : string) (set : list string -> Params -> Params) (acc : list string).

(** Takes an option: the new mode, namespace and list of option strings
    seen. *)
Definition take (a : argument) (explicit : option string)
    (ns : Params) (seen : list string)
  : option (mode * Params * list string) :=
  let o := option_string a in
  match act a, explicit with
  | store conv, None => Some (NeedOne o conv, ns, seen)
  | store conv, Some e =>
      if String.eqb e "--" then None
      else match conv e with
           | Some f => Some (Idle, f ns, o :: seen)
           | None => None
           end
  | store_true set, None => Some (Idle, set ns, o :: seen)
  | store_true _, Some _ => None
  | store_star set, None => Some (Star o set [], ns, seen)
  | store_star set, Some e =>
      if String.eqb e "--" then None
      else Some (Idle, set [e] ns, o :: seen)
  | help, _ => None
  end.

Fixpoint consume (ps : parser) (args : list string) (m : mode)
    (ns : Params) (seen : list string) : option (Params * list string) :=
  match args with
  | [] =>
      match m with
      | Idle => Some (ns, seen)
      | NeedOne _ _ => None
      | Star o set acc => Some (set acc ns, o :: seen)
      end
  | s :: rest =>
      match m, classify ps s with
      | _, Bad => None
      | Idle, Arg => None
      | Idle, Opt a e =>
          match take a e ns seen with
          | Some (m', ns', seen') => consume ps rest m' ns' seen'
          | None => None
          end
      | NeedOne o conv, Arg =>
          match conv s with
          | Some f => consume ps rest Idle (f ns) (o :: seen)
          | None => None
          end
      | NeedOne _ _, Opt _ _ => None
      | Star o set acc, Arg => consume ps rest (Star o set (acc ++ [s])) ns seen
      | Star o set acc, Opt a e =>
          match take a e (set acc ns) (o :: seen) with
          | Some (m', ns', seen') => consume ps rest m' ns' seen'
          | None => None
          end
      end
  end.

Definition was_seen (seen : list string) (o : string) : bool :=
  Py.str_in o seen.

(** [parse_args]: the namespace and the option strings that were given. *)
Definition parse_args (ps : parser) (defaults : Params) (argv : list string)
  : option (Params * list string) :=
  match consume ps argv Idle defaults [] with
  | Some (ns, seen) =>
      if forallb (fun a => negb (required a) || was_seen seen (option_string a)) ps
      then Some (ns, seen)
      else None
  | None => None
  end.

(** [type=str] and [type=int] *)
Definition as_str (set : string -> Params -> Params) (s : string)
  : option (Params -> Params) := Some (set s).
Definition as_int (set : Z -> Params -> Params) (s : string)
  : option (Params -> Params) :=
  match Py.int_of_string s with
  | Some z => Some (set z)
  | None => None
  end.

End Argparse.

(** *** The wrapper's parser (lines 13 to 47) *)

(** The [default] of every [add_argument]. *)
Definition defaults : Params :=
  {| aln := None; tree := None; dates := None;
     infer_gtr := true;
     reroot := "best";
     optimize_branch_length := false;
     keep_polytomies := false;
     relax := RelaxBool false;
     max_iter := 2;
     verbose := 1;
     Tc := "0.0";
     plot := false |}.

Import Argparse.

Definition parser : Argparse.parser :=
  [ {| option_string := "-h"; act := help; required := false |};
    {| option_string := "--help"; act := help; required := false |};
    {| option_string := "--aln";
       act := store (as_str (fun s => set_aln (Some s))); required := true |};
    {| option_string := "--tree";
       act := store (as_str (fun s => set_tree (Some s))); required := true |};
    {| option_string := "--dates";
       act := store (as_str (fun s => set_dates (Some s))); required := true |};
    {| option_string := "--infer_gtr";
       act := store_true (set_infer_gtr true); required := false |};
    {| option_string := "--reroot";
       act := store (as_str set_reroot); required := false |};
    {| option_string := "--optimize_branch_length";
       act := store_true (set_optimize_branch_length true); required := false |};
    {| option_string := "--keep_polytomies";
       act := store_true (set_keep_polytomies true); required := false |};
    {| option_string := "--relax";
       act := store_star (fun l => set_relax (RelaxList l)); required := false |};
    {| option_string := "--max_iter";
       act := store (as_int set_max_iter); required := false |};
    {| option_string := "--verbose";
       act := store (as_int set_verbose); required := false |};
    {| option_string := "--Tc";
       act := store (as_str set_Tc); required := false |};
    {| option_string := "--plot";
       act := store_true (set_plot true); required := false |} ].

(** Lines 45 to 47: [parse_args], then a bare [--relax] becomes [True]. *)
Definition parse_params (argv : list string) : option (Params * list string) :=
  match parse_args parser defaults argv with
  | Some (p, seen) =>
      Some (match relax p with
            | RelaxList [] => set_relax (RelaxBool true) p
            | _ => p
            end, seen)
  | None => None
  end.

(** ** Dates and options (lines 52 to 72) *)

(** One turn of the loop over the lines of the dates file.  A line
    that does not unpack into two fields, or whose second field
    [float] refuses, raises inside the [try] and is passed over. *)
Definition parse_date_line (dates : gmap string Py.float) (line : string)
  : gmap string Py.float :=
  match Py.slice_to 2 (Py.split "," (Py.strip line)) with
  | [name; date] =>
      match Py.float_of_string date with
      | Some f => <[name := f]> dates
      | None => dates
      end
  | _ => dates
  end.

Definition parse_dates (date_file : list string) : gmap string Py.float :=
  fold_left parse_date_line date_file ∅.

(** The value of [Tc] handed to the engine. *)
Inductive TcArg :=
| TcNone
| TcFloat (f : Py.float)
| TcStr (s : string).

Definition parse_Tc (s : string) : TcArg :=
  match Py.float_of_string s with
  | Some f => if Py.float_lt f Py.float_1e_5 then TcNone else TcFloat f
  | None => if Py.str_in s ["opt"; "skyline"] then TcStr s else TcNone
  end.

(** [Tc == 'skyline'] *)
Definition Tc_is_skyline (t : TcArg) : bool :=
  match t with
  | TcStr s => String.eqb s "skyline"
  | _ => false
  end.

(** ** The calls into the engine (lines 77 to 82) *)

Record TreeTimeArgs := {
  tt_dates : gmap string Py.float;
  tt_tree : option string;
  tt_aln : option string;
  tt_gtr : string;
  tt_verbose : Z
}.

Record RunArgs := {
  root : string;
  relaxed_clock : Relax;
  resolve_polytomies : bool;
  run_Tc : TcArg;
  run_max_iter : Z;
  use_input_branch_length : bool
}.

Definition treetime_args (p : Params) (date_file : list string) : TreeTimeArgs :=
  {| tt_dates := parse_dates date_file;
     tt_tree := tree p;
     tt_aln := aln p;
     tt_gtr := "JC69";
     tt_verbose := verbose p |}.

Definition run_args (p : Params) : RunArgs :=
  {| root := reroot p;
     relaxed_clock := relax p;
     resolve_polytomies := negb (keep_polytomies p);
     run_Tc := parse_Tc (Tc p);
     run_max_iter := max_iter p;
     use_input_branch_length := negb (optimize_branch_length p) |}.

(** The files that can be opened, as the lines their iteration yields.
    The files are text that decodes: a dates file whose bytes do not
    decode, for which the iteration itself raises, is outside this
    model. *)
Definition files : Type := string -> option (list string).

(** How the script can stop before the engine is built.  [SystemExit]
    also stands for the command lines outside the model of
    [argparse]. *)
Inductive early_exit :=
| SystemExit
| IOError (file : option string).

(** Lines 13 to 72: everything before the engine is built. *)
Definition setup (argv : list string) (fs : files)
  : early_exit + (Params * TreeTimeArgs * RunArgs) :=
  match parse_params argv with
  | None => inl SystemExit
  | Some (p, _) =>
      match match dates p with Some f => fs f | None => None end with
      | None => inl (IOError (dates p))
      | Some date_file => inr (p, treetime_args p date_file, run_args p)
      end
  end.

(** ** The tree (Bio.Phylo clades as the engine leaves them) *)

(** A mutation: ancestral residue, position, derived residue. *)
Definition mutation : Type := string * Z * string.

(** The attributes of a clade other than its children.  [up] is the
    reference to the parent clade, as an identifier. *)
Record Node := {
  name : option string;
  branch_length : option Py.float;
  confidence : option Py.float;
  comment : option string;
  up : option nat;
  mutations : list mutation
}.

Inductive Clade :=
| mkClade (node : Node) (clades : list Clade).

Definition clades_of (c : Clade) : list Clade :=
  match c with mkClade _ cs => cs end.

(** [n.is_terminal()] *)
Definition is_terminal (c : Clade) : bool :=
  match clades_of c with [] => true | _ => false end.

(** ** Decoration of the tree (lines 120 to 131) *)

Definition dquote : string := String "034" EmptyString.

(** [a+str(pos)+d] *)
Definition mutation_str (m : mutation) : string :=
  let '(a, pos, d) := m in a +:+ Py.str_of_int pos +:+ d.

(** Line 131 *)
Definition mutations_comment (ms : list mutation) : string :=
  "&mutations=" +:+ dquote +:+ Py.join "_" (map mutation_str ms) +:+ dquote.

(** Line 128 *)
Definition truncated_name (nm : string) (terminal_count : nat) : string :=
  Py.str_slice_to 35 nm +:+ "_" +:+ Py.fmt_03d terminal_count.

Definition set_confidence v n :=
  {| name := name n; branch_length := branch_length n; confidence := v;
     comment := comment n; up := up n; mutations := mutations n |}.
Definition set_name v n :=
  {| name := v; branch_length := branch_length n; confidence := confidence n;
     comment := comment n; up := up n; mutations := mutations n |}.
Definition set_comment v n :=
  {| name := name n; branch_length := branch_length n; confidence := confidence n;
     comment := v; up := up n; mutations := mutations n |}.

(** The body of the loop for one clade: the new attributes and the new
    [terminal_count].  [None] is the [TypeError] of [len(None)], raised
    for a leaf without a name. *)
Definition decorate_node (bioversion : string) (terminal : bool)
    (n : Node) (terminal_count : nat) : option (Node * nat) :=
  match up n with
  | None => Some (n, terminal_count)
  | Some _ =>
      let n1 := set_confidence None n in
      let renamed :=
        if terminal then
          match name n1 with
          | None => None
          | Some nm =>
              if (40 <? Py.len nm) && Py.str_lt bioversion "1.69"
              then Some (set_name (Some (truncated_name nm terminal_count)) n1,
                         S terminal_count)
              else Some (n1, terminal_count)
          end
        else Some (n1, terminal_count) in
      match renamed with
      | None => None
      | Some (n2, tc) =>
          match mutations n2 with
          | [] => Some (n2, tc)
          | _ :: _ => Some (set_comment (Some (mutations_comment (mutations n2))) n2, tc)
          end
      end
  end.

(** The loop over [find_clades()]: every clade before its children, the
    children from first to last. *)
Fixpoint decorate (bioversion : string) (c : Clade) (terminal_count : nat)
  : option (Clade * nat) :=
  match c with
  | mkClade n cs =>
      match decorate_node bioversion (is_terminal c) n terminal_count with
      | None => None
      | Some (n', tc1) =>
          let fix go (cs : list Clade) (tc : nat) : option (list Clade * nat) :=
            match cs with
            | [] => Some ([], tc)
            | c1 :: r =>
                match decorate bioversion c1 tc with
                | None => None
                | Some (c1', tc') =>
                    match go r tc' with
                    | None => None
                    | Some (r', tc'') => Some (c1' :: r', tc'')
                    end
                end
            end in
          match go cs tc1 with
          | None => None
          | Some (cs', tc2) => Some (mkClade n' cs', tc2)
          end
      end
  end.

(** Lines 120 to 131, [terminal_count] starting at 0. *)
Definition decorate_tree (bioversion : string) (t : Clade) : option Clade :=
  match decorate bioversion t 0%nat with
  | Some (t', _) => Some t'
  | None => None
  end.

(** The clades in the order of [find_clades()], each with
    [is_terminal()]. *)
Fixpoint find_clades (c : Clade) : list (Node * bool) :=
  match c with
  | mkClade n cs =>
      (n, is_terminal c) :: flat_map find_clades cs
  end.

(** The tree without its attributes. *)
Inductive shape :=
| Shape (children : list shape).

Fixpoint shape_of (c : Clade) : shape :=
  match c with
  | mkClade _ cs => Shape (map shape_of cs)
  end.

(** The loop seen on the list of clades. *)
Fixpoint decorate_list (bioversion : string) (l : list (Node * bool))
    (terminal_count : nat) : option (list (Node * bool) * nat) :=
  match l with
  | [] => Some ([], terminal_count)
  | (n, t) :: r =>
      match decorate_node bioversion t n terminal_count with
      | None => None
      | Some (n', tc) =>
          match decorate_list bioversion r tc with
          | None => None
          | Some (r', tc') => Some ((n', t) :: r', tc')
          end
      end
  end.

(** ** The script from the engine on (lines 77 to 135) *)

(** [path.split('/')[-1]] *)
Definition file_name (path : string) : string :=
  List.last (Py.split "/" path) EmptyString.

(** ['.'.join(path.split('/')[-1].split('.')[:-1])] *)
Definition base_name (path : string) : string :=
  Py.join "." (List.removelast (Py.split "." (file_name path))).

Definition newline : string := String "010" EmptyString.

(** The engine as the script uses it: the object [myTree], what it
    raises and what it hands back. *)
Record engine (TT exn alignment : Type) := {
  TreeTime : TreeTimeArgs -> exn + TT;
  run : RunArgs -> TT -> exn + TT;
  gtr : TT -> string;
  date2dist : TT -> string;
  (** [merger_model.skyline_inferred(gen)]: the [x] and the [y] of the
      result. *)
  skyline_inferred : Z -> TT -> list Py.float * list Py.float;
  plot_vs_years : TT -> TT;
  branch_length_to_years : TT -> TT;
  get_reconstructed_alignment : TT -> alignment;
  tree_of : TT -> Clade
}.

Arguments TreeTime {TT exn alignment}.
Arguments run {TT exn alignment}.
Arguments gtr {TT exn alignment}.
Arguments date2dist {TT exn alignment}.
Arguments skyline_inferred {TT exn alignment}.
Arguments plot_vs_years {TT exn alignment}.
Arguments branch_length_to_years {TT exn alignment}.
Arguments get_reconstructed_alignment {TT exn alignment}.
Arguments tree_of {TT exn alignment}.

Inductive output (alignment : Type) :=
| Printed (s : string)
| PrintedRow (x y : Py.float)
| SaveFig (file : string)
| WriteAlignment (a : alignment) (file : string)
| WriteTree (t : Clade) (file : string).

Arguments Printed {alignment}.
Arguments PrintedRow {alignment}.
Arguments SaveFig {alignment}.
Arguments WriteAlignment {alignment}.
Arguments WriteTree {alignment}.

Inductive failure (exn : Type) :=
| EngineError (e : exn)
| AttributeError
| TypeError.

Arguments EngineError {exn}.
Arguments AttributeError {exn}.
Arguments TypeError {exn}.

Inductive outcome (exn alignment : Type) :=
| Early (e : early_exit)
| Aborted (out : list (output alignment)) (e : failure exn)
| Finished (out : list (output alignment)).

Arguments Early {exn alignment}.
Arguments Aborted {exn alignment}.
Arguments Finished {exn alignment}.

(** What was written when the script stopped. *)
Definition output_of {exn alignment} (o : outcome exn alignment)
  : list (output alignment) :=
  match o with
  | Early _ => []
  | Aborted out _ => out
  | Finished out => out
  end.

(** Lines 96 and 97 *)
Definition skyline_rows {alignment} (xs ys : list Py.float)
  : list (output alignment) :=
  map (fun xy => PrintedRow (fst xy) (snd xy)) (combine xs ys).

Section Script.

Context {TT exn alignment : Type}.
Variable E : engine TT exn alignment.
(** [Bio.__version__] *)
Variable bioversion : string.

(** Lines 87 to 97 *)
Definition report (p : Params) (Tc : TcArg) (myTree : TT)
  : list (output alignment) :=
  (if infer_gtr p
   then [Printed (newline +:+ "Inferred GTR model:"); Printed (gtr E myTree)]
   else [])
  ++ [Printed (date2dist E myTree)]
  ++ (if Tc_is_skyline Tc
      then
        let skyline := skyline_inferred E 50 myTree in
        Printed "inferred skyline assuming 50 generations per year:"
        :: skyline_rows (fst skyline) (snd skyline)
      else []).

(** Lines 100 to 135 *)
Definition save (p : Params) (out : list (output alignment)) (myTree : TT)
  : outcome exn alignment :=
  match aln p with
  | None => Aborted out AttributeError
  | Some a =>
      let base := base_name a in
      let '(myTree, out) :=
        if plot p
        then (plot_vs_years E myTree, out ++ [SaveFig (base +:+ "_tree.pdf")])
        else (branch_length_to_years E myTree, out) in
      let out :=
        out ++ [WriteAlignment (get_reconstructed_alignment E myTree)
                               (base +:+ "_ancestral.fasta")] in
      match decorate_tree bioversion (tree_of E myTree) with
      | None => Aborted out TypeError
      | Some t =>
          match tree p with
          | None => Aborted out AttributeError
          | Some tr =>
              Finished (out ++ [WriteTree t (base_name tr +:+ "_timetree.nexus")])
          end
      end
  end.

Definition main (argv : list string) (fs : files) : outcome exn alignment :=
  match setup argv fs with
  | inl e => Early e
  | inr (p, ta, ra) =>
      match TreeTime E ta with
      | inl e => Aborted [] (EngineError e)
      | inr myTree =>
          match run E ra myTree with
          | inl e => Aborted [] (EngineError e)
          | inr myTree => save p (report p (run_Tc ra) myTree) myTree
          end
      end
  end.

End Script.

(** ** The inference engine *)

Module Engine.

(** Modelled from the spec: the package [treetime] (class [TreeTime],
    its method [run] and polytomy resolution) is not among the sources.
    What follows is the tree of section 3, sequence reconstruction as
    far as section 4.2 fixes it, the re-estimation of branch lengths
    and the resolution of polytomies of section 4.3 and the iteration
    of section 4.5.  The spec does not fix the attributes of the nodes
    that resolution adds: they are copied from the resolved node, with
    branch length zero and no name. *)
Record node := {
  name : option string;
  branch_length : Py.float;
  date : option Py.float;
  sequence : string;
  mutations : list mutation
}.

Inductive tree :=
| Tree (n : node) (children : list tree).

Definition node_of (t : tree) : node := match t with Tree n _ => n end.

(** Modelled from the spec: "ordered by inferred child dates"; a child
    without a date comes first. *)
Definition date_le (a b : tree) : bool :=
  match date (node_of a), date (node_of b) with
  | None, _ => true
  | Some _, None => false
  | Some x, Some y => SFleb x y
  end.

Fixpoint insert_by_date (c : tree) (l : list tree) : list tree :=
  match l with
  | [] => [c]
  | d :: r => if date_le c d then c :: l else d :: insert_by_date c r
  end.

Definition sort_by_date (l : list tree) : list tree :=
  fold_right insert_by_date [] l.

Definition added_node (n : node) : node :=
  {| name := None;
     branch_length := S754_zero false;
     date := date n;
     sequence := sequence n;
     mutations := [] |}.

(** Modelled from the spec: "a sequence of bifurcations": the children
    of a node for the children [c :: cs] in this order.  The branches
    that separate the children of one node are the ones added here, of
    length zero: this is how "near-zero separating branch length" is
    read, so that every node with more than two children is
    resolved. *)
Fixpoint bifurcations (n : node) (c : tree) (cs : list tree) : list tree :=
  match cs with
  | [] => [c]
  | c2 :: r =>
      match r with
      | [] => [c; c2]
      | _ :: _ => [c; Tree (added_node n) (bifurcations n c2 r)]
      end
  end.

(** Modelled from the spec: a node with a single child gives, with that
    child, one node at the end of the two branches put together.  The
    spec says of the result of resolution that "every internal node has
    exactly two children", "for all trees", of which the input may be
    of "arbitrary branching"; it names no other treatment of a node
    with one child. *)
Definition joined (n : node) (c : tree) : tree :=
  match c with
  | Tree m ds =>
      Tree {| name := name m;
              branch_length :=
                SFadd Py.prec Py.emax (branch_length n) (branch_length m);
              date := date m;
              sequence := sequence m;
              mutations := mutations n ++ mutations m |} ds
  end.

(** Modelled from the spec: "multi-child nodes [...] are resolved into a
    sequence of bifurcations ordered by inferred child dates [...],
    producing a strictly bifurcating tree". *)
Fixpoint resolve (t : tree) : tree :=
  match t with
  | Tree n cs =>
      match map resolve cs with
      | [] => Tree n []
      | [c] => joined n c
      | [c1; c2] => Tree n [c1; c2]
      | cs' =>
          match sort_by_date cs' with
          | c :: r => Tree n (bifurcations n c r)
          | [] => Tree n []
          end
      end
  end.




(** The nodes, every node before its children. *)
Fixpoint nodes (t : tree) : list node :=
  match t with
  | Tree n cs => n :: flat_map nodes cs
  end.

(** The branches, in the order of [nodes]: every node with the sequence
    at the other end of its branch, that of its parent; the root has
    none. *)
Fixpoint branches (parent : option string) (t : tree)
  : list (option string * node) :=
  match t with
  | Tree n cs => (parent, n) :: flat_map (branches (Some (sequence n))) cs
  end.

Fixpoint shape_of (t : tree) : shape :=
  match t with
  | Tree _ cs => Shape (map shape_of cs)
  end.

(** Modelled from the spec: sequence reconstruction works on "a tree
    with fixed topology and branch lengths" and gives a "reconstructed
    sequence per node" and a "mutation list per branch".  [f] gives
    both for the node at a place of the tree, the place being the
    indices of the children on the way down from the root. *)
Fixpoint reconstruct (f : list nat -> string * list mutation)
    (place : list nat) (t : tree) : tree :=
  match t with
  | Tree n cs =>
      Tree {| name := name n;
              branch_length := branch_length n;
              date := date n;
              sequence := fst (f place);
              mutations := snd (f place) |}
           ((fix children (i : nat) (cs : list tree) : list tree :=
               match cs with
               | [] => []
               | c :: r => reconstruct f (place ++ [i]) c :: children (S i) r
               end) 0%nat cs)
  end.

(** Modelled from the spec: "one-dimensional optimization per branch,
    independent given fixed neighbor sequences": [opt] gives the length
    re-estimated for a branch from the sequences at its two ends and
    the length it has; the root is at the end of no branch. *)
Fixpoint reoptimize (opt : string -> string -> Py.float -> Py.float)
    (parent : option string) (t : tree) : tree :=
  match t with
  | Tree n cs =>
      Tree {| name := name n;
              branch_length :=
                match parent with
                | Some s => opt s (sequence n) (branch_length n)
                | None => branch_length n
                end;
              date := date n;
              sequence := sequence n;
              mutations := mutations n |}
           (map (reoptimize opt (Some (sequence n))) cs)
  end.

(** The state of the engine: the tree and, in [model], what the engine
    holds besides (substitution model, clock, coalescent model). *)
Record state (model : Type) := { the_tree : tree; the_model : model }.

Arguments the_tree {model}.
Arguments the_model {model}.

(** The numerical work of sections 4.1 to 4.4, and the test "clock rate
    and total tree likelihood change below a small relative tolerance
    between iterations". *)
Record stages (model : Type) := {
  reconstructed : model -> tree -> list nat -> string * list mutation;
  optimal_branch_length : model -> string -> string -> Py.float -> Py.float;
  fit_clock : state model -> state model;
  reroot_at : string -> state model -> state model;
  fit_coalescent : TcArg -> state model -> state model;
  rescale_node_times : state model -> state model;
  converged : state model -> state model -> bool
}.

Arguments reconstructed {model}.
Arguments optimal_branch_length {model}.
Arguments fit_clock {model}.
Arguments reroot_at {model}.
Arguments fit_coalescent {model}.
Arguments rescale_node_times {model}.
Arguments converged {model}.

Inductive status := CONVERGED | MAX_ITER_REACHED.

Record result (model : Type) := {
  final : state model;
  outcome : status;
  iterations : nat
}.

Arguments final {model}.
Arguments outcome {model}.
Arguments iterations {model}.

Section Orchestrator.

Context {model : Type}.
Variable stg : stages model.

(** Modelled from the spec: "re-runs sequence reconstruction (4.2) with
    current branch lengths". *)
Definition reconstruct_sequences (st : state model) : state model :=
  {| the_tree :=
       reconstruct (reconstructed stg (the_model st) (the_tree st)) []
         (the_tree st);
     the_model := the_model st |}.

(** Modelled from the spec: "Branch-length reoptimization
    ([optimize_branch_length]) replaces input branch lengths with
    lengths re-estimated". *)
Definition reestimate_branch_lengths (st : state model) : state model :=
  {| the_tree :=
       reoptimize (optimal_branch_length stg (the_model st)) None (the_tree st);
     the_model := the_model st |}.

Definition branch_length_stage (a : RunArgs) (st : state model) : state model :=
  if use_input_branch_length a then st else reestimate_branch_lengths st.

(** Modelled from the spec: "optionally reroots only on iteration 1". *)
Definition reroot_stage (a : RunArgs) (i : nat) (st : state model) : state model :=
  if (i =? 1)%nat then reroot_at stg (root a) st else st.

(** Modelled from the spec: "optionally resolves polytomies". *)
Definition resolve_stage (a : RunArgs) (st : state model) : state model :=
  if resolve_polytomies a
  then {| the_tree := resolve (the_tree st); the_model := the_model st |}
  else st.

(** Modelled from the spec: "refits the coalescent prior if requested". *)
Definition coalescent_stage (a : RunArgs) (st : state model) : state model :=
  match run_Tc a with
  | TcNone => st
  | tc => fit_coalescent stg tc st
  end.

(** Modelled from the spec: the stages of one outer iteration, numbered
    [i] from 1, up to the resolution of polytomies (section 4.5). *)
Definition until_resolved (a : RunArgs) (i : nat) (st : state model) : state model :=
  let st := reconstruct_sequences st in
  let st := branch_length_stage a st in
  let st := fit_clock stg st in
  let st := reroot_stage a i st in
  resolve_stage a st.

(** Modelled from the spec: one outer iteration (section 4.5). *)
Definition outer_iteration (a : RunArgs) (i : nat) (st : state model) : state model :=
  let st := until_resolved a i st in
  let st := coalescent_stage a st in
  rescale_node_times stg st.

(** Modelled from the spec: the outer loop, "until convergence or
    [max_iter]".  [left] iterations are still allowed and [i] were
    made. *)
Fixpoint iterate (a : RunArgs) (left i : nat) (st : state model) : result model :=
  match left with
  | O => {| final := st; outcome := MAX_ITER_REACHED; iterations := i |}
  | S left' =>
      let st' := outer_iteration a (S i) st in
      if converged stg st st'
      then {| final := st'; outcome := CONVERGED; iterations := S i |}
      else iterate a left' (S i) st'
  end.

(** Modelled from the spec: [run], from an initialised state. *)
Definition run (a : RunArgs) (st : state model) : result model :=
  iterate a (Z.to_nat (run_max_iter a)) 0 st.

(** The state after the [k] outer iterations that follow iteration
    [i]. *)
Fixpoint after (a : RunArgs) (k i : nat) (st : state model) : state model :=
  match k with
  | O => st
  | S k' => after a k' (S i) (outer_iteration a (S i) st)
  end.

End Orchestrator.

End Engine.

(** ** Predicates used in the statements *)

Section Invariant.

  (** A property [I] of the namespace and of the options seen is kept
      by an [add_argument] when its action keeps it. *)
Variable I : Params -> list string -> Prop.

Definition preserves (a : Argparse.argument) : Prop :=
    match Argparse.act a with
    | Argparse.store conv =>
        forall ns seen s f, I ns seen -> conv s = Some f ->
          I (f ns) (Argparse.option_string a :: seen)
    | Argparse.store_true set =>
        forall ns seen, I ns seen -> I (set ns) (Argparse.option_string a :: seen)
    | Argparse.store_star set =>
        forall ns seen l, I ns seen -> I (set l ns) (Argparse.option_string a :: seen)
    | Argparse.help => True
    end.

Definition mode_ok (m : Argparse.mode) : Prop :=
    match m with
    | Argparse.Idle => True
    | Argparse.NeedOne o conv =>
        forall ns seen s f, I ns seen -> conv s = Some f -> I (f ns) (o :: seen)
    | Argparse.Star o set _ =>
        forall ns seen l, I ns seen -> I (set l ns) (o :: seen)
    end.

End Invariant.

(** [--o] was given on the command line. *)
Definition given (seen : list string) (o : string) : bool :=
  Argparse.was_seen seen o.

(** Every leaf that has a parent has a name. *)
Definition named_leaves (t : Clade) : Prop :=
  forall n, In (n, true) (find_clades t) -> up n <> None -> name n <> None.

(** What the loop does to the name of one clade, [k] being the value of
    [terminal_count] when the loop comes to it. *)
Definition name_after (bioversion : string) (k : nat) (a b : Node * bool) : Prop :=
  let '(n, terminal) := a in
  let '(n', _) := b in
  (up n = None -> name n' = name n) /\
  (Py.str_lt bioversion "1.69" = false -> name n' = name n) /\
  (terminal = false -> name n' = name n) /\
  (forall nm, name n = Some nm -> Py.len nm <= 40 -> name n' = name n) /\
  (forall nm, up n <> None -> terminal = true ->
     Py.str_lt bioversion "1.69" = true ->
     name n = Some nm -> 40 < Py.len nm ->
     name n' = Some (truncated_name nm k)).

(** What the loop does to one clade, [k] being the value of
    [terminal_count] when the loop comes to it. *)
Definition decorated (bioversion : string) (k : nat) (a b : Node * bool) : Prop :=
  let '(n, terminal) := a in
  let '(n', terminal') := b in
  terminal' = terminal /\
  (up n = None -> n' = n) /\
  (up n <> None ->
     confidence n' = None /\
     (mutations n <> [] -> comment n' = Some (mutations_comment (mutations n))) /\
     (mutations n = [] -> comment n' = comment n) /\
     branch_length n' = branch_length n /\
     up n' = up n /\
     mutations n' = mutations n) /\
  name_after bioversion k a b.

(** The attributes of a node that sequence reconstruction leaves as they
    are. *)
Definition same_branch (n n' : Engine.node) : Prop :=
  Engine.name n' = Engine.name n /\
  Engine.branch_length n' = Engine.branch_length n /\
  Engine.date n' = Engine.date n.

(** What the re-estimation of branch lengths makes of a node [n] whose
    parent has the sequence [parent]: [opt] gives the length of the
    branch, and nothing else changes; the root has no branch. *)
Definition reestimated (opt : string -> string -> Py.float -> Py.float)
    (b : option string * Engine.node) (n' : Engine.node) : Prop :=
  let '(parent, n) := b in
  Engine.name n' = Engine.name n /\
  Engine.date n' = Engine.date n /\
  Engine.sequence n' = Engine.sequence n /\
  Engine.mutations n' = Engine.mutations n /\
  Engine.branch_length n' =
  match parent with
  | Some s => opt s (Engine.sequence n) (Engine.branch_length n)
  | None => Engine.branch_length n
  end.

(** ** Tactics *)

(** One goal for each option of the wrapper's parser. *)
Ltac each_option H :=
  simpl in H;
  repeat (destruct H as [H|H]; [subst; unfold preserves, as_str, as_int; simpl|]);
  [..|contradiction].

(** Opens the conversions of [type=str] and [type=int]. *)
Ltac conv_cases :=
  intros;
  repeat match goal with
  | H : match ?x with _ => _ end = Some _ |- _ => destruct x; [|discriminate]
  | H : Some _ = Some _ |- _ => injection H as <-
  end.

(** ** Examples *)

Definition example_argv : list string :=
  ["--aln"; "data/H3N2.fasta"; "--tree"; "data/H3N2.nwk"; "--dates"; "data/H3N2.csv"].

Definition example_dates : list string :=
  ["name,date"; "A/Boston/2012,2012.15"; "A/Oslo/2013, 2013.5 "].

Definition example_files : files :=
  fun f => if String.eqb f "data/H3N2.csv" then Some example_dates else None.

Definition example_params (argv : list string) : Params :=
  match parse_params argv with
  | Some (p, _) => p
  | None => defaults
  end.

Definition example_seen (argv : list string) : list string :=
  match parse_params argv with
  | Some (_, seen) => seen
  | None => []
  end.

Definition example_clade (nm : option string) (parent : option nat)
    (ms : list mutation) (cs : list Clade) : Clade :=
  mkClade {| name := nm; branch_length := Some (S754_zero false);
             confidence := Some Py.float_1e_5; comment := None;
             up := parent; mutations := ms |} cs.

Definition long_name : string := "A/Brisbane/10/2007|CY039079|2007-02-06|Oceania".

Definition example_tree : Clade :=
  example_clade None None []
    [ example_clade (Some long_name) (Some 0%nat) [("A", 12, "G"); ("C", 305, "T")] [];
      example_clade (Some "NODE_1") (Some 0%nat) []
        [ example_clade (Some "A/Oslo/2013") (Some 2%nat) [("G", 7, "A")] [];
          example_clade (Some long_name) (Some 2%nat) [] [] ] ].

Definition example_small_tree : Clade :=
  example_clade (Some "root") None []
    [ example_clade (Some long_name) (Some 0%nat) [] [];
      example_clade (Some "B") (Some 0%nat) [] [] ].

Definition example_engine : engine Clade string unit :=
  {| TreeTime := fun _ => inr example_tree;
     run := fun _ t => inr t;
     gtr := fun _ => "JC69";
     date2dist := fun _ => "rate";
     skyline_inferred := fun _ _ =>
       ([S754_zero false; Py.float_1e_5], [Py.float_1e_5; S754_zero false; S754_nan]);
     plot_vs_years := fun t => t;
     branch_length_to_years := fun t => t;
     get_reconstructed_alignment := fun _ => tt;
     tree_of := fun t => t |}.

Definition example_stages : Engine.stages unit :=
  {| Engine.reconstructed := fun _ _ place =>
       (if (length place =? 0)%nat then "ACGT" else "ACGA",
        if (length place =? 0)%nat then [] else [("T", 4, "A")]);
     Engine.optimal_branch_length := fun _ _ _ _ => Py.float_of_decimal false 25 (-2);
     Engine.fit_clock := fun st => st;
     Engine.reroot_at := fun _ st => st;
     Engine.fit_coalescent := fun _ st => st;
     Engine.rescale_node_times := fun st => st;
     Engine.converged := fun _ _ => false |}.

Definition example_leaf (nm : string) (d : Py.float) : Engine.tree :=
  Engine.Tree {| Engine.name := Some nm; Engine.branch_length := Py.float_1e_5;
                 Engine.date := Some d; Engine.sequence := "ACGT";
                 Engine.mutations := [] |} [].

Definition example_inner (cs : list Engine.tree) : Engine.tree :=
  Engine.Tree {| Engine.name := None; Engine.branch_length := S754_zero false;
                 Engine.date := None; Engine.sequence := "ACGT";
                 Engine.mutations := [] |} cs.

(** A root with four children. *)
Definition example_polytomy : Engine.tree :=
  example_inner
    [ example_leaf "A" (Py.float_of_decimal false 20135 (-1));
      example_leaf "B" (Py.float_of_decimal false 2011 0);
      example_leaf "C" (Py.float_of_decimal false 201215 (-2));
      example_inner [ example_leaf "D" (Py.float_of_decimal false 2011 0);
                      example_leaf "E" (Py.float_of_decimal false 2014 0) ] ].


Definition example_state (t : Engine.tree) : Engine.state unit :=
  {| Engine.the_tree := t; Engine.the_model := tt |}.

(** ** Further definitions *)

(** What one line of the dates file contributes: a name and a date, or
    nothing. *)
Definition date_entry (line : string) : option (string * Py.float) :=
  match Py.slice_to 2 (Py.split "," (Py.strip line)) with
  | [name; date] =>
      match Py.float_of_string date with
      | Some f => Some (name, f)
      | None => None
      end
  | _ => None
  end.

(** The line gives a date to [nm]. *)
Definition names (nm : string) (line : string) : Prop :=
  exists f, date_entry line = Some (nm, f).

(** The options that need not be given. *)
Definition optional_options : list string :=
  ["--infer_gtr"; "--reroot"; "--optimize_branch_length"; "--keep_polytomies";
   "--relax"; "--max_iter"; "--verbose"; "--Tc"; "--plot"].

(** ** The labels of the plot (lines 106 to 109) *)

(** [myTree.tree.count_terminals()] *)
Definition count_terminals (t : Clade) : Z :=
  Z.of_nat (length (List.filter snd (find_clades t))).

(** [label_func]: the condition is [leaf_count < (30 & x.is_terminal())],
    as [&] binds tighter than [<]; [x.name[:20]] raises for a clade
    without a name ([None]). *)
Definition label_func (leaf_count : Z) (x : Clade) : option string :=
  if leaf_count <? Z.land 30 (Z.b2z (is_terminal x))
  then match name (match x with mkClade n _ => n end) with
       | Some nm => Some (Py.str_slice_to 20 nm)
       | None => None
       end
  else Some "".

(** ** The leaves that the decoration renames *)

(** The condition of line 127, for a clade that has a parent. *)
Definition renamed (bioversion : string) (c : Node * bool) : bool :=
  match up (fst c), name (fst c) with
  | Some _, Some nm => snd c && (40 <? Py.len nm) && Py.str_lt bioversion "1.69"
  | _, _ => false
  end.

Definition count_renamed (bioversion : string) (l : list (Node * bool)) : nat :=
  length (List.filter (renamed bioversion) l).

(** * Properties *)

(** ** The command line *)

Section ParserInvariant.

Variable ps : Argparse.parser.
Variable I : Params -> list string -> Prop.
Hypothesis Hps : forall a, In a ps -> preserves I a.

Lemma find_exact_In s a : find_exact ps s = Some a -> In a ps.
Proof.
    clear Hps. induction ps as [|b r IH]; simpl; [discriminate|].
    destruct (String.eqb (option_string b) s).
    - intros [= ->]. now left.
    - intros H. right. now apply IH.
Qed.

Lemma by_prefix_In pre e k a e' :
    by_prefix ps pre e = Some k -> k = Opt a e' -> In a ps.
Proof.
    unfold by_prefix. intros H ->.
    destruct (List.filter _ ps) as [|b [|c r]] eqn:Hf; try discriminate.
    injection H as -> _.
    assert (Hin : In a (List.filter (fun a0 => String.prefix pre (option_string a0)) ps))
      by (rewrite Hf; now left).
    apply List.filter_In in Hin. tauto.
Qed.

Lemma classify_In s a e : classify ps s = Opt a e -> In a ps.
Proof.
    unfold classify. destruct s as [|c r]; [discriminate|].
    destruct (negb (Ascii.eqb c "-")); [discriminate|].
    destruct (String.eqb (String c r) "--"); [discriminate|].
    destruct (find_exact ps (String c r)) as [b|] eqn:Hx.
    { intros [= -> _]. eapply find_exact_In; eauto. }
    destruct r as [|c2 r2]; [discriminate|].
    destruct (split_eq (String c (String c2 r2))) as [[o ex]|] eqn:Hs.
    - destruct (find_exact ps o) as [b|] eqn:Ho.
      { intros [= -> _]. eapply find_exact_In; eauto. }
      destruct (Ascii.eqb c2 "-").
      + destruct (by_prefix ps o (Some ex)) as [k|] eqn:Hp.
        * intros ->. eapply by_prefix_In; eauto.
        * destruct (negative_number _); [discriminate|].
          destruct (contains _ _); discriminate.
      + destruct (find_exact ps (Py.str_slice_to 2 _)); [discriminate|].
        destruct (by_prefix ps _ None) as [k|] eqn:Hp.
        * intros ->. eapply by_prefix_In; eauto.
        * destruct (negative_number _); [discriminate|].
          destruct (contains _ _); discriminate.
    - destruct (Ascii.eqb c2 "-").
      + destruct (by_prefix ps _ None) as [k|] eqn:Hp.
        * intros ->. eapply by_prefix_In; eauto.
        * destruct (negative_number _); [discriminate|].
          destruct (contains _ _); discriminate.
      + destruct (find_exact ps (Py.str_slice_to 2 _)); [discriminate|].
        destruct (by_prefix ps _ None) as [k|] eqn:Hp.
        * intros ->. eapply by_prefix_In; eauto.
        * destruct (negative_number _); [discriminate|].
          destruct (contains _ _); discriminate.
Qed.

Lemma take_inv a e ns seen m' ns' seen' :
    In a ps -> I ns seen ->
    take a e ns seen = Some (m', ns', seen') ->
    I ns' seen' /\ mode_ok I m'.
Proof.
    intros Ha HI. pose proof (Hps a Ha) as Hp.
    unfold preserves in Hp. unfold take.
    destruct (act a) as [conv|set|set|]; destruct e as [e|]; try discriminate.
    - destruct (String.eqb e "--"); [discriminate|].
      destruct (conv e) as [f|] eqn:Hc; [|discriminate].
      intros [= <- <- <-]. split; [eapply Hp; eauto | exact Logic.I].
    - intros [= <- <- <-]. split; [assumption|]. simpl. intros. eapply Hp; eauto.
    - intros [= <- <- <-]. split; [now apply Hp | exact Logic.I].
    - destruct (String.eqb e "--"); [discriminate|].
      intros [= <- <- <-]. split; [now apply Hp | exact Logic.I].
    - intros [= <- <- <-]. split; [assumption|]. simpl. intros. now apply Hp.
Qed.

Lemma consume_inv args : forall m ns seen ns' seen',
    I ns seen -> mode_ok I m ->
    consume ps args m ns seen = Some (ns', seen') -> I ns' seen'.
Proof.
    induction args as [|s rest IH]; intros m ns seen ns' seen' HI Hm; simpl.
    - destruct m; try discriminate.
      + now intros [= <- <-].
      + intros [= <- <-]. now apply Hm.
    - destruct (classify ps s) as [|a e|] eqn:Hc.
      + destruct m as [|o conv|o set acc]; try discriminate.
        * destruct (conv s) as [f|] eqn:Hf; [|discriminate].
          apply IH; [eapply Hm; eauto | exact Logic.I].
        * apply IH; assumption.
      + apply classify_In in Hc.
        destruct m as [|o conv|o set acc]; try discriminate.
        * destruct (take a e ns seen) as [[[m1 ns1] seen1]|] eqn:Ht; [|discriminate].
          destruct (take_inv _ _ _ _ _ _ _ Hc HI Ht). now apply IH.
        * destruct (take a e (set acc ns) (o :: seen)) as [[[m1 ns1] seen1]|] eqn:Ht;
            [|discriminate].
          assert (HI' : I (set acc ns) (o :: seen)) by now apply Hm.
          destruct (take_inv _ _ _ _ _ _ _ Hc HI' Ht). now apply IH.
      + destruct m; discriminate.
Qed.

Lemma parse_args_inv d argv ns seen :
    I d [] -> parse_args ps d argv = Some (ns, seen) -> I ns seen.
Proof.
    intros Hd. unfold parse_args.
    destruct (consume ps argv Idle d []) as [[ns1 seen1]|] eqn:Hc; [|discriminate].
    destruct (forallb _ ps); [|discriminate].
    intros [= <- <-]. eapply consume_inv; eauto. exact Logic.I.
Qed.

End ParserInvariant.

(** A property kept by the fourteen options of the wrapper and by the
    rewriting of a bare [--relax] holds of what [parse_params] returns. *)
Lemma parse_params_inv (I : Params -> list string -> Prop) argv p seen :
  (forall a, In a parser -> preserves I a) ->
  (forall ns s r, I ns s -> I (set_relax r ns) s) ->
  I defaults [] ->
  parse_params argv = Some (p, seen) -> I p seen.
Proof.
  intros Hps Hrelax Hd. unfold parse_params.
  destruct (parse_args parser defaults argv) as [[ns s]|] eqn:Hp; [|discriminate].
  pose proof (parse_args_inv parser I Hps defaults argv ns s Hd Hp) as HI.
  intros [= <- <-].
  destruct (relax ns) as [b|[|x l]]; auto.
Qed.

Lemma parsed_infer_gtr argv p seen :
  parse_params argv = Some (p, seen) -> infer_gtr p = true.
Proof.
  apply (parse_params_inv (fun ns _ => infer_gtr ns = true)); auto.
  intros a H. each_option H; auto; intros;
    repeat match goal with
    | H : match ?x with _ => _ end = Some _ |- _ => destruct x; [|discriminate]
    | H : Some _ = Some _ |- _ => injection H as <-
    end; auto.
Qed.

(** [store_true] options: the value is whether the option was given. *)
Lemma keep_polytomies_given argv p seen :
  parse_params argv = Some (p, seen) ->
  keep_polytomies p = given seen "--keep_polytomies".
Proof.
  apply (parse_params_inv
           (fun ns s => keep_polytomies ns = given s "--keep_polytomies")); auto.
  intros a H. each_option H; auto; conv_cases; auto.
Qed.

Lemma optimize_branch_length_given argv p seen :
  parse_params argv = Some (p, seen) ->
  optimize_branch_length p = given seen "--optimize_branch_length".
Proof.
  apply (parse_params_inv
           (fun ns s => optimize_branch_length ns
                        = given s "--optimize_branch_length")); auto.
  intros a H. each_option H; auto; conv_cases; auto.
Qed.

(** Options that were not given keep their default. *)
Lemma Tc_default argv p seen :
  parse_params argv = Some (p, seen) ->
  given seen "--Tc" = false -> Tc p = "0.0".
Proof.
  apply (parse_params_inv (fun ns s => given s "--Tc" = false -> Tc ns = "0.0")); auto.
  intros a H. each_option H; auto; conv_cases; auto; discriminate.
Qed.

Lemma max_iter_default argv p seen :
  parse_params argv = Some (p, seen) ->
  given seen "--max_iter" = false -> max_iter p = 2.
Proof.
  apply (parse_params_inv
           (fun ns s => given s "--max_iter" = false -> max_iter ns = 2)); auto.
  intros a H. each_option H; auto; conv_cases; auto; discriminate.
Qed.

(** The required options are set in every namespace returned. *)
Lemma setup_inr argv fs p ta ra :
  setup argv fs = inr (p, ta, ra) ->
  exists seen f date_file,
    parse_params argv = Some (p, seen) /\ dates p = Some f /\
    fs f = Some date_file /\
    ta = treetime_args p date_file /\ ra = run_args p.
Proof.
  unfold setup. destruct (parse_params argv) as [[p0 seen]|]; [|discriminate].
  destruct (dates p0) as [f|] eqn:Hd; [|discriminate].
  destruct (fs f) as [date_file|] eqn:Hf; [|discriminate].
  intros [= <- <- <-]. exists seen, f, date_file. auto.
Qed.

Lemma setup_proceeds argv fs p seen f date_file :
  parse_params argv = Some (p, seen) -> dates p = Some f ->
  fs f = Some date_file ->
  setup argv fs = inr (p, treetime_args p date_file, run_args p).
Proof.
  intros Hp Hd Hf. unfold setup. now rewrite Hp, Hd, Hf.
Qed.

(** ** Decoration of the tree *)

Lemma Clade_ind' (P : Clade -> Prop) :
  (forall n cs, Forall P cs -> P (mkClade n cs)) -> forall c, P c.
Proof.
  intros H. fix IH 1. intros [n cs]. apply H.
  induction cs as [|c r IHr]; constructor; [apply IH | exact IHr].
Qed.

Lemma decorate_list_app bv l1 : forall l2 tc,
  decorate_list bv (l1 ++ l2) tc =
  match decorate_list bv l1 tc with
  | Some (l1', tc1) =>
      match decorate_list bv l2 tc1 with
      | Some (l2', tc2) => Some (l1' ++ l2', tc2)
      | None => None
      end
  | None => None
  end.
Proof.
  induction l1 as [|[n t] r IH]; intros l2 tc; simpl.
  - destruct (decorate_list bv l2 tc) as [[? ?]|]; reflexivity.
  - destruct (decorate_node bv t n tc) as [[n' tc1]|]; [|reflexivity].
    rewrite IH. destruct (decorate_list bv r tc1) as [[r' tc2]|]; [|reflexivity].
    destruct (decorate_list bv l2 tc2) as [[? ?]|]; reflexivity.
Qed.

(** The loop over the tree is the loop over the list of its clades, and
    the tree keeps its shape. *)
Lemma decorate_as_list bv c : forall tc,
  match decorate bv c tc with
  | Some (c', tc') =>
      decorate_list bv (find_clades c) tc = Some (find_clades c', tc')
      /\ shape_of c' = shape_of c
  | None => decorate_list bv (find_clades c) tc = None
  end.
Proof.
  induction c as [n cs IH] using Clade_ind'. intros tc.
  cbn [decorate find_clades decorate_list].
  change (is_terminal (mkClade n cs)) with (match cs with [] => true | _ => false end).
  destruct (decorate_node bv _ n tc) as [[n' tc1]|]; [|reflexivity].
  match goal with |- context [(fix go (cs : list Clade) (tc : nat) {struct cs} := _) cs tc1] =>
    set (go := (fix go (cs : list Clade) (tc : nat) {struct cs} : option (list Clade * nat) := _))
  end.
  assert (Hgo : forall tc0,
    match go cs tc0 with
    | Some (cs', tc') =>
        decorate_list bv (flat_map find_clades cs) tc0
        = Some (flat_map find_clades cs', tc')
        /\ map shape_of cs' = map shape_of cs
    | None => decorate_list bv (flat_map find_clades cs) tc0 = None
    end).
  { clear n n'. induction IH as [|c r Hc Hr IHr]; intros tc0; [simpl; auto|].
    cbn [go flat_map]. fold go. rewrite decorate_list_app.
    specialize (Hc tc0). destruct (decorate bv c tc0) as [[c' tc']|].
    - destruct Hc as [-> Hs]. specialize (IHr tc').
      destruct (go r tc') as [[r' tc'']|].
      + destruct IHr as [-> Hs']. cbn [flat_map map]. now rewrite Hs, Hs'.
      + now rewrite IHr.
    - now rewrite Hc. }
  specialize (Hgo tc1). destruct (go cs tc1) as [[cs' tc2]|].
  - destruct Hgo as [-> Hs]. cbn [find_clades shape_of]. rewrite Hs. split; [|reflexivity].
    change (is_terminal (mkClade n' cs')) with (match cs' with [] => true | _ => false end).
    destruct cs, cs'; try discriminate; reflexivity.
  - now rewrite Hgo.
Qed.

(** The two ways through the body of the loop for a clade that has a
    parent: the name is kept, or it is truncated and the counter moves. *)
Lemma decorate_node_cases bv t n tc n' tc' :
  decorate_node bv t n tc = Some (n', tc') ->
  (up n = None /\ n' = n /\ tc' = tc) \/
  (up n <> None /\
   exists nm',
     n' = {| name := nm'; branch_length := branch_length n; confidence := None;
             comment := match mutations n with
                        | [] => comment n
                        | _ :: _ => Some (mutations_comment (mutations n))
                        end;
             up := up n; mutations := mutations n |} /\
     ((nm' = name n /\ tc' = tc /\
       (t = true -> exists nm, name n = Some nm /\
                    (40 <? Py.len nm) && Py.str_lt bv "1.69" = false)) \/
      (t = true /\ exists nm, name n = Some nm /\ 40 < Py.len nm /\
                   Py.str_lt bv "1.69" = true /\
                   nm' = Some (truncated_name nm tc) /\ tc' = S tc))).
Proof.
  unfold decorate_node.
  destruct (up n) as [u|] eqn:Hu.
  2:{ intros [= <- <-]. left. auto. }
  intros H. right. split; [discriminate|]. rewrite <- Hu.
  unfold set_comment, set_name, set_confidence in H. cbn in H.
  destruct t.
  - destruct (name n) as [nm|] eqn:Hn; [|discriminate].
    destruct ((40 <? Py.len nm) && Py.str_lt bv "1.69") eqn:Hc.
    + cbn in H. apply andb_prop in Hc as [Hlen Hv]. apply Z.ltb_lt in Hlen.
      exists (Some (truncated_name nm tc)).
      split; [destruct (mutations n); injection H as <- <-; reflexivity|].
      right. split; [reflexivity|]. exists nm.
      destruct (mutations n); injection H as <- <-; auto.
    + cbn in H. exists (Some nm).
      split; [destruct (mutations n); injection H as <- <-; reflexivity|].
      left. split; [reflexivity|].
      split; [destruct (mutations n); now injection H as <- <-|].
      intros _. exists nm. auto.
  - cbn in H. exists (name n).
    split; [destruct (mutations n); injection H as <- <-; reflexivity|].
    left. split; [reflexivity|].
    split; [destruct (mutations n); now injection H as <- <-|discriminate].
Qed.

Lemma decorate_node_decorated bv t n tc n' tc' :
  decorate_node bv t n tc = Some (n', tc') ->
  decorated bv tc (n, t) (n', t).
Proof.
  intros H. apply decorate_node_cases in H.
  unfold decorated, name_after.
  destruct H as [(Hu & -> & _)|(Hu & nm' & -> & Hn)].
  { repeat split; auto; contradiction. }
  cbn [name branch_length confidence comment up mutations].
  assert (Hm1 : mutations n <> [] ->
    match mutations n with
    | [] => comment n
    | _ :: _ => Some (mutations_comment (mutations n))
    end = Some (mutations_comment (mutations n)))
    by (destruct (mutations n); [contradiction|reflexivity]).
  assert (Hm2 : mutations n = [] ->
    match mutations n with
    | [] => comment n
    | _ :: _ => Some (mutations_comment (mutations n))
    end = comment n) by (intros ->; reflexivity).
  split; [reflexivity|]. split; [contradiction|].
  split; [intros _; repeat split; auto|].
  destruct Hn as [(-> & _ & Hs)|(-> & nm & Hnm & Hlen & Hv & -> & _)].
  - repeat split; auto.
    intros nm _ -> Hv Hnm Hlen.
    destruct (Hs eq_refl) as (nm0 & Hnm0 & Hc).
    rewrite Hnm in Hnm0. injection Hnm0 as <-.
    apply Z.ltb_lt in Hlen. rewrite Hlen, Hv in Hc. discriminate Hc.
  - split; [contradiction|]. split; [congruence|]. split; [discriminate|].
    split; [intros nm0 H0 Hle; rewrite Hnm in H0; injection H0 as <-; lia|].
    intros nm0 _ _ _ H0 _. rewrite Hnm in H0. now injection H0 as <-.
Qed.

Lemma decorate_node_counter bv t n tc n' tc' :
  decorate_node bv t n tc = Some (n', tc') ->
  up n' = up n /\
  if renamed bv (n, t)
  then (exists nm, name n = Some nm /\ 40 < Py.len nm /\
                   name n' = Some (truncated_name nm tc)) /\ tc' = S tc
  else name n' = name n /\ tc' = tc.
Proof.
  intros H. apply decorate_node_cases in H. unfold renamed. cbn [fst snd].
  destruct H as [(Hu & -> & ->)|(Hu & nm' & -> & H)].
  { rewrite Hu. auto. }
  cbn [up name]. split; [reflexivity|].
  destruct (up n) as [u|]; [|contradiction].
  destruct H as [(-> & -> & Ht)|(-> & nm & Hn & Hlen & Hv & -> & ->)].
  - destruct (name n) as [nm|] eqn:Hn; [|auto].
    destruct t; [|cbn [andb]; auto].
    destruct (Ht eq_refl) as (nm0 & [= <-] & Hc). cbn [andb]. rewrite Hc. auto.
  - rewrite Hn. cbn [andb]. apply Z.ltb_lt in Hlen as Hlen'. rewrite Hlen', Hv.
    cbn [andb]. split; [|reflexivity]. exists nm. auto.
Qed.

Lemma count_renamed_cons bv c l :
  count_renamed bv (c :: l) =
  ((if renamed bv c then 1 else 0) + count_renamed bv l)%nat.
Proof. unfold count_renamed. cbn [List.filter]. now destruct (renamed bv c). Qed.

Lemma decorate_list_length bv l : forall tc l' tc',
  decorate_list bv l tc = Some (l', tc') -> length l' = length l.
Proof.
  induction l as [|[n t] r IH]; intros tc l' tc'; cbn [decorate_list].
  - now intros [= <- <-].
  - destruct (decorate_node bv t n tc) as [[n1 tc1]|]; [|discriminate].
    destruct (decorate_list bv r tc1) as [[r' tc2]|] eqn:Hr; [|discriminate].
    intros [= <- <-]. cbn [length]. f_equal. eapply IH; eauto.
Qed.

(** The clade at place [i] of the list goes through the body of the loop
    with the counter at the number of the clades renamed before it. *)
Lemma decorate_list_lookup bv l : forall tc l' tc',
  decorate_list bv l tc = Some (l', tc') ->
  forall i n term, l !! i = Some (n, term) ->
    exists n' tc1,
      l' !! i = Some (n', term) /\
      decorate_node bv term n (tc + count_renamed bv (firstn i l)) = Some (n', tc1).
Proof.
  induction l as [|[n t] r IH]; intros tc l' tc'; cbn [decorate_list].
  - intros _ i ? ? H. destruct i; discriminate H.
  - destruct (decorate_node bv t n tc) as [[n1 tc1]|] eqn:Hn; [|discriminate].
    destruct (decorate_list bv r tc1) as [[r' tc2]|] eqn:Hr; [|discriminate].
    intros [= <- <-] [|i] m term Hl; cbn in Hl.
    + injection Hl as <- <-. exists n1, tc1. split; [reflexivity|].
      cbn [firstn]. unfold count_renamed. cbn [List.filter length].
      rewrite Nat.add_0_r. exact Hn.
    + destruct (IH _ _ _ Hr i m term Hl) as (n' & tc3 & H1 & H2).
      exists n', tc3. split; [exact H1|].
      cbn [firstn]. rewrite count_renamed_cons.
      apply decorate_node_counter in Hn as [_ Hn].
      replace (tc + ((if renamed bv (n, t) then 1 else 0)
                     + count_renamed bv (firstn i r)))%nat
        with (tc1 + count_renamed bv (firstn i r))%nat; [exact H2|].
      destruct (renamed bv (n, t)); destruct Hn as [_ ->]; lia.
Qed.

(** The loop raises only at a leaf that has a parent and no name. *)
Lemma decorate_list_total bv l : forall tc,
  (forall n, In (n, true) l -> up n <> None -> name n <> None) ->
  exists r, decorate_list bv l tc = Some r.
Proof.
  induction l as [|[n t] r IH]; intros tc H; simpl; [eauto|].
  assert (Hn : exists x, decorate_node bv t n tc = Some x).
  { unfold decorate_node. destruct (up n) eqn:Hu; [|eauto].
    cbn [name set_confidence].
    destruct t.
    - destruct (name n) as [nm|] eqn:Hnm.
      + destruct (_ && _); cbn; destruct (mutations n); eauto.
      + exfalso. apply (H n); [now left|congruence|assumption].
    - destruct (mutations _); eauto. }
  destruct Hn as [[n' tc1] ->].
  destruct (IH tc1) as [[r' tc2] ->]; [|eauto].
  intros m Hm. apply H. now right.
Qed.

(** ** The option [Tc] *)

(** C1, as the script behaves: a [--Tc] value that [float] refuses and
    that is neither "opt" nor "skyline" is read as [None]; nothing is
    reported, and the script goes on to build the engine and to run it
    with the coalescent model switched off. *)
Theorem unsupported_Tc_disables_coalescent argv fs p seen f date_file :
  parse_params argv = Some (p, seen) ->
  dates p = Some f ->
  fs f = Some date_file ->
  Py.float_of_string (Tc p) = None ->
  Py.str_in (Tc p) ["opt"; "skyline"] = false ->
  parse_Tc (Tc p) = TcNone /\
  setup argv fs = inr (p, treetime_args p date_file, run_args p) /\
  run_Tc (run_args p) = TcNone /\
  forall TT exn alignment (E : engine TT exn alignment) bioversion,
    main E bioversion argv fs =
    match TreeTime E (treetime_args p date_file) with
    | inl e => Aborted [] (EngineError e)
    | inr myTree =>
        match run E (run_args p) myTree with
        | inl e => Aborted [] (EngineError e)
        | inr myTree => save E bioversion p (report E p TcNone myTree) myTree
        end
    end.
Proof.
  intros Hp Hd Hf Hfl Hin.
  assert (HTc : parse_Tc (Tc p) = TcNone) by (unfold parse_Tc; now rewrite Hfl, Hin).
  pose proof (setup_proceeds _ _ _ _ _ _ Hp Hd Hf) as Hs.
  repeat split; auto.
  intros. unfold main. rewrite Hs. cbn [run_args run_Tc]. now rewrite HTc.
Qed.

Lemma unsupported_Tc_disables_coalescent_witness :
  parse_Tc "foo" = TcNone /\
  setup (example_argv ++ ["--Tc"; "foo"]) example_files =
    inr (example_params (example_argv ++ ["--Tc"; "foo"]),
         treetime_args (example_params (example_argv ++ ["--Tc"; "foo"])) example_dates,
         run_args (example_params (example_argv ++ ["--Tc"; "foo"]))).
Proof.
  pose proof (unsupported_Tc_disables_coalescent
                (example_argv ++ ["--Tc"; "foo"]) example_files
                (example_params (example_argv ++ ["--Tc"; "foo"]))
                (example_seen (example_argv ++ ["--Tc"; "foo"]))
                "data/H3N2.csv" example_dates
                eq_refl eq_refl eq_refl eq_refl eq_refl) as H.
  split; [exact (proj1 H) | exact (proj1 (proj2 H))].
Defined.

(** C1 as stated fails: with [--Tc foo] no error is reported; the
    engine is built and run with [Tc=None], as for [--Tc 0.0]. *)
Lemma unsupported_Tc_not_reported :
  Py.float_of_string "foo" = None /\
  Py.str_in "foo" ["opt"; "skyline"] = false /\
  Tc (example_params (example_argv ++ ["--Tc"; "foo"])) = "foo" /\
  match setup (example_argv ++ ["--Tc"; "foo"]) example_files,
        setup (example_argv ++ ["--Tc"; "0.0"]) example_files with
  | inr (_, ta, ra), inr (_, ta', ra') =>
      run_Tc ra = TcNone /\ ra = ra' /\ ta = ta'
  | _, _ => False
  end /\
  main example_engine "1.70" (example_argv ++ ["--Tc"; "foo"]) example_files =
  main example_engine "1.70" (example_argv ++ ["--Tc"; "0.0"]) example_files /\
  exists out, main example_engine "1.70" (example_argv ++ ["--Tc"; "foo"]) example_files
              = Finished out.
Proof.
  repeat split; try reflexivity.
  eexists. vm_compute. reflexivity.
Qed.

(** C9: a [--Tc] value that [float] reads as a number below [1e-5]
    is handed to the engine as [None]; so is the default "0.0", which
    is the value of [Tc] whenever [--Tc] is not given. *)
Theorem small_Tc_disables_coalescent :
  (forall s x, Py.float_of_string s = Some x ->
               Py.float_lt x Py.float_1e_5 = true ->
               parse_Tc s = TcNone) /\
  Tc defaults = "0.0" /\
  parse_Tc "0.0" = TcNone /\
  (forall argv p seen,
     parse_params argv = Some (p, seen) ->
     (forall x, Py.float_of_string (Tc p) = Some x ->
                Py.float_lt x Py.float_1e_5 = true ->
                run_Tc (run_args p) = TcNone) /\
     (given seen "--Tc" = false -> run_Tc (run_args p) = TcNone)).
Proof.
  assert (H : forall s x, Py.float_of_string s = Some x ->
               Py.float_lt x Py.float_1e_5 = true -> parse_Tc s = TcNone).
  { intros s x Hs Hlt. unfold parse_Tc. now rewrite Hs, Hlt. }
  split; [exact H|]. split; [reflexivity|]. split; [reflexivity|].
  intros argv p seen Hp. split.
  - intros x. apply H.
  - intros Hg. cbn [run_args run_Tc]. now rewrite (Tc_default _ _ _ Hp Hg).
Qed.

Lemma small_Tc_disables_coalescent_witness :
  parse_Tc "-0.5e-6" = TcNone /\
  run_Tc (run_args (example_params example_argv)) = TcNone /\
  run_Tc (run_args (example_params (example_argv ++ ["--Tc=9.9e-6"]))) = TcNone.
Proof.
  destruct small_Tc_disables_coalescent as (H1 & _ & _ & H2).
  split; [|split].
  - exact (H1 "-0.5e-6" _ eq_refl eq_refl).
  - exact (proj2 (H2 example_argv _ (example_seen example_argv) eq_refl) eq_refl).
  - exact (proj1 (H2 (example_argv ++ ["--Tc=9.9e-6"]) _
                     (example_seen (example_argv ++ ["--Tc=9.9e-6"])) eq_refl)
                 _ eq_refl eq_refl).
Defined.

(** ** The dates file *)

Lemma parse_dates_app l1 l2 :
  parse_dates (l1 ++ l2) = fold_left parse_date_line l2 (parse_dates l1).
Proof. unfold parse_dates. apply fold_left_app. Qed.

(** C2, as the script behaves: a line whose date field [float] refuses
    is passed over in silence; the dates, and with them everything the
    script does afterwards, are those of the file without the line. *)
Theorem malformed_date_line_skipped before line after nm date :
  Py.slice_to 2 (Py.split "," (Py.strip line)) = [nm; date] ->
  Py.float_of_string date = None ->
  (forall d, parse_date_line d line = d) /\
  parse_dates (before ++ line :: after) = parse_dates (before ++ after) /\
  forall argv fs p seen f,
    parse_params argv = Some (p, seen) -> dates p = Some f ->
    fs f = Some (before ++ line :: after) ->
    setup argv fs = inr (p, treetime_args p (before ++ after), run_args p).
Proof.
  intros Hs Hf.
  assert (H1 : forall d, parse_date_line d line = d)
    by (intros d; unfold parse_date_line; now rewrite Hs, Hf).
  assert (H2 : parse_dates (before ++ line :: after) = parse_dates (before ++ after)).
  { rewrite !parse_dates_app. cbn [fold_left]. now rewrite H1. }
  repeat split; auto.
  intros argv fs p seen f Hp Hd Hfs.
  rewrite (setup_proceeds _ _ _ _ _ _ Hp Hd Hfs).
  unfold treetime_args. now rewrite H2.
Qed.

Lemma malformed_date_line_skipped_witness :
  parse_dates ([] ++ "name,date" :: ["A/Boston/2012,2012.15"; "A/Oslo/2013, 2013.5 "])
  = parse_dates ([] ++ ["A/Boston/2012,2012.15"; "A/Oslo/2013, 2013.5 "]).
Proof.
  exact (proj1 (proj2 (malformed_date_line_skipped
                         [] "name,date"
                         ["A/Boston/2012,2012.15"; "A/Oslo/2013, 2013.5 "]
                         "name" "date" eq_refl eq_refl))).
Defined.

(** C2 as stated fails: the first line of the example file has the
    date field "date"; no error is reported, the sample "name" gets no
    date and the other lines are read. *)
Lemma malformed_date_not_reported :
  Py.slice_to 2 (Py.split "," (Py.strip "name,date")) = ["name"; "date"] /\
  Py.float_of_string "date" = None /\
  match setup example_argv example_files with
  | inr (_, ta, _) =>
      tt_dates ta !! "name" = None /\
      tt_dates ta !! "A/Boston/2012" = Some (S754_finite false 8849529287317914 (-42)) /\
      tt_dates ta = parse_dates ["A/Boston/2012,2012.15"; "A/Oslo/2013, 2013.5 "]
  | inl _ => False
  end /\
  exists out, main example_engine "1.70" example_argv example_files = Finished out.
Proof.
  repeat split; try reflexivity.
  eexists. vm_compute. reflexivity.
Qed.

(** ** The report *)

Section ScriptProperties.

Context {TT exn alignment : Type}.
Variable E : engine TT exn alignment.
Variable bioversion : string.

(** What [save] writes comes after what was written before. *)
Lemma save_output p out myTree :
  exists rest, output_of (save E bioversion p out myTree) = out ++ rest.
Proof.
  unfold save. destruct (aln p) as [a|]; [|exists []; cbn; now rewrite app_nil_r].
  destruct (plot p).
  - destruct (decorate_tree _ _) as [t|].
    + destruct (tree p) as [tr|]; cbn; rewrite <- ?app_assoc; eauto.
    + cbn. rewrite <- ?app_assoc; eauto.
  - destruct (decorate_tree _ _) as [t|].
    + destruct (tree p) as [tr|]; cbn; rewrite <- ?app_assoc; eauto.
    + cbn. eauto.
Qed.

(** Once the engine has run, the output starts with the report. *)
Lemma main_output argv fs p ta ra myTree0 myTree :
  setup argv fs = inr (p, ta, ra) ->
  TreeTime E ta = inr myTree0 ->
  run E ra myTree0 = inr myTree ->
  exists rest,
    output_of (main E bioversion argv fs) = report E p (run_Tc ra) myTree ++ rest.
Proof.
  intros Hs Ht Hr. unfold main. rewrite Hs, Ht, Hr. apply save_output.
Qed.

Lemma skyline_rows_length (xs ys : list Py.float) :
  length (@skyline_rows alignment xs ys) = Nat.min (length xs) (length ys).
Proof. unfold skyline_rows. now rewrite length_map, length_combine. Qed.

Lemma skyline_rows_lookup (xs : list Py.float) : forall (ys : list Py.float) i x y,
  xs !! i = Some x -> ys !! i = Some y ->
  @skyline_rows alignment xs ys !! i = Some (PrintedRow x y).
Proof.
  induction xs as [|x0 xs IH]; intros [|y0 ys] [|i] x y; cbn; try discriminate.
  - now intros [= ->] [= ->].
  - apply IH.
Qed.

(** C5: when [Tc] is "skyline", the script, after the engine has run,
    calls [skyline_inferred] with 50 generations per year and prints,
    after a heading, one row for each pair of a time and a rate, in
    the order in which the engine returned them. *)
Theorem skyline_reported_in_order argv fs p ta ra myTree0 myTree :
  setup argv fs = inr (p, ta, ra) ->
  Tc p = "skyline" ->
  TreeTime E ta = inr myTree0 ->
  run E ra myTree0 = inr myTree ->
  let xs := fst (skyline_inferred E 50 myTree) in
  let ys := snd (skyline_inferred E 50 myTree) in
  run_Tc ra = TcStr "skyline" /\
  (exists before after,
     output_of (main E bioversion argv fs) =
     before
     ++ Printed "inferred skyline assuming 50 generations per year:"
        :: skyline_rows xs ys
     ++ after) /\
  length (@skyline_rows alignment xs ys) = Nat.min (length xs) (length ys) /\
  forall i x y, xs !! i = Some x -> ys !! i = Some y ->
                @skyline_rows alignment xs ys !! i = Some (PrintedRow x y).
Proof.
  intros Hs HTc Ht Hr xs ys.
  destruct (setup_inr _ _ _ _ _ Hs) as (seen & f & df & _ & _ & _ & _ & Hra).
  assert (HT : run_Tc ra = TcStr "skyline")
    by (rewrite Hra; cbn [run_args run_Tc]; now rewrite HTc).
  split; [exact HT|]. split; [|split].
  - destruct (main_output _ _ _ _ _ _ _ Hs Ht Hr) as [rest Hout].
    rewrite Hout, HT. unfold report. cbn [Tc_is_skyline String.eqb].
    change (String.eqb "skyline" "skyline") with true. cbv iota.
    exists ((if infer_gtr p
             then [Printed (newline +:+ "Inferred GTR model:"); Printed (gtr E myTree)]
             else []) ++ [Printed (date2dist E myTree)]), rest.
    rewrite <- !app_assoc. reflexivity.
  - apply skyline_rows_length.
  - apply skyline_rows_lookup.
Qed.

(** C8: [infer_gtr] is [True] in every namespace that [parse_args]
    returns; the engine is built with the model "JC69"; and whenever
    the engine has run, the report of the inferred GTR model is the
    first thing printed. *)
Theorem infer_gtr_always_true argv fs :
  (forall p seen, parse_params argv = Some (p, seen) -> infer_gtr p = true) /\
  (forall p ta ra, setup argv fs = inr (p, ta, ra) ->
     infer_gtr p = true /\ tt_gtr ta = "JC69") /\
  (forall p ta ra myTree0 myTree,
     setup argv fs = inr (p, ta, ra) ->
     TreeTime E ta = inr myTree0 ->
     run E ra myTree0 = inr myTree ->
     exists rest,
       output_of (main E bioversion argv fs) =
       Printed (newline +:+ "Inferred GTR model:") :: Printed (gtr E myTree) :: rest).
Proof.
  split; [|split].
  - intros p seen. apply parsed_infer_gtr.
  - intros p ta ra Hs.
    destruct (setup_inr _ _ _ _ _ Hs) as (seen & f & df & Hp & _ & _ & -> & _).
    split; [eapply parsed_infer_gtr; eauto|reflexivity].
  - intros p ta ra myTree0 myTree Hs Ht Hr.
    destruct (main_output _ _ _ _ _ _ _ Hs Ht Hr) as [rest ->].
    destruct (setup_inr _ _ _ _ _ Hs) as (seen & f & df & Hp & _).
    unfold report. rewrite (parsed_infer_gtr _ _ _ Hp). cbn [app]. eauto.
Qed.

End ScriptProperties.

Lemma skyline_reported_in_order_witness :
  run_Tc (run_args (example_params (example_argv ++ ["--Tc"; "skyline"])))
  = TcStr "skyline".
Proof.
  refine (proj1 (skyline_reported_in_order example_engine "1.70"
                   (example_argv ++ ["--Tc"; "skyline"]) example_files
                   (example_params (example_argv ++ ["--Tc"; "skyline"]))
                   _ _ example_tree example_tree
                   eq_refl eq_refl eq_refl eq_refl)).
Defined.

Lemma infer_gtr_always_true_witness :
  infer_gtr (example_params (example_argv ++ ["--infer_gtr"; "--plot"])) = true.
Proof.
  exact (proj1 (infer_gtr_always_true example_engine "1.70"
                  (example_argv ++ ["--infer_gtr"; "--plot"]) example_files)
               _ (example_seen (example_argv ++ ["--infer_gtr"; "--plot"])) eq_refl).
Defined.

(** ** Names and the other attributes after decoration *)

Lemma decorate_tree_lookup bv t :
  named_leaves t ->
  exists t', decorate_tree bv t = Some t' /\
    shape_of t' = shape_of t /\
    length (find_clades t') = length (find_clades t) /\
    forall i a, find_clades t !! i = Some a ->
      exists b, find_clades t' !! i = Some b /\
        decorated bv (count_renamed bv (firstn i (find_clades t))) a b.
Proof.
  intros Hn. unfold decorate_tree.
  destruct (decorate_list_total bv (find_clades t) 0%nat Hn) as [[l' tc'] Hl].
  pose proof (decorate_as_list bv t 0%nat) as Hd.
  destruct (decorate bv t 0%nat) as [[t' k]|]; [|congruence].
  destruct Hd as [Hd Hs]. exists t'. split; [reflexivity|]. split; [exact Hs|].
  split; [exact (decorate_list_length _ _ _ _ _ Hd)|].
  intros i [n term] Hi.
  destruct (decorate_list_lookup _ _ _ _ _ Hd i n term Hi) as (n' & tc1 & H1 & H2).
  exists (n', term). split; [exact H1|].
  exact (decorate_node_decorated _ _ _ _ _ _ H2).
Qed.

Lemma name_after_kept bv l : forall l',
  Py.str_lt bv "1.69" = false ->
  length l' = length l ->
  (forall i a, l !! i = Some a ->
     exists b k, l' !! i = Some b /\ name_after bv k a b) ->
  map (fun c => name (fst c)) l' = map (fun c => name (fst c)) l.
Proof.
  intros l' Hv. revert l'.
  induction l as [|a r IH]; intros [|b r'] Hlen H; try discriminate Hlen;
    [reflexivity|].
  cbn [map]. f_equal.
  - destruct (H 0%nat a eq_refl) as (b0 & k & [= <-] & Hb).
    destruct a as [n t], b as [n' t']. destruct Hb as (_ & Hb & _).
    exact (Hb Hv).
  - apply IH; [now injection Hlen|].
    intros i a0 Hi. exact (H (S i) a0 Hi).
Qed.

(** C3, as the script behaves: the names are left as they are when the
    version of Biopython is not below "1.69" (as strings), and in any
    case for clades that are not leaves, that have no parent or whose
    name has at most 40 characters; the name of any other leaf is
    replaced by its first 35 characters, an underscore and the number
    of the leaves renamed before it, written with at least three
    digits.  The loop completes when every leaf that has a parent has
    a name. *)
Theorem leaf_names_kept_unless_truncated bioversion t :
  named_leaves t ->
  exists t', decorate_tree bioversion t = Some t' /\
    length (find_clades t') = length (find_clades t) /\
    (forall i a, find_clades t !! i = Some a ->
       exists b, find_clades t' !! i = Some b /\
         name_after bioversion
           (count_renamed bioversion (firstn i (find_clades t))) a b) /\
    (Py.str_lt bioversion "1.69" = false ->
     map (fun c => name (fst c)) (find_clades t')
     = map (fun c => name (fst c)) (find_clades t)).
Proof.
  intros Hn.
  destruct (decorate_tree_lookup bioversion t Hn) as (t' & Hd & _ & Hlen & Hi).
  assert (Hna : forall i a, find_clades t !! i = Some a ->
            exists b, find_clades t' !! i = Some b /\
              name_after bioversion
                (count_renamed bioversion (firstn i (find_clades t))) a b).
  { intros i [n term] Ha. destruct (Hi i _ Ha) as ([n' term'] & Hb & Hdec).
    exists (n', term'). split; [exact Hb|].
    destruct Hdec as (_ & _ & _ & Hdec). exact Hdec. }
  exists t'. split; [exact Hd|]. split; [exact Hlen|]. split; [exact Hna|].
  intros Hv. apply (name_after_kept bioversion); [exact Hv|exact Hlen|].
  intros i a Ha. destruct (Hna i a Ha) as (b & Hb & H). eauto.
Qed.

Lemma example_small_tree_named : named_leaves example_small_tree.
Proof.
  intros n Hin _. cbn in Hin.
  repeat (destruct Hin as [Hin|Hin]; [injection Hin as <-; discriminate|]).
  contradiction.
Qed.

Lemma leaf_names_kept_unless_truncated_witness :
  exists t' b,
    decorate_tree "1.68" example_small_tree = Some t' /\
    find_clades t' !! 1%nat = Some b /\
    name (fst b) = Some (truncated_name long_name 0).
Proof.
  destruct (leaf_names_kept_unless_truncated "1.68" example_small_tree
              example_small_tree_named) as (t' & Hd & _ & Hn & _).
  destruct (Hn 1%nat _ eq_refl) as ([n' term'] & Hb & Hna).
  exists t', (n', term'). split; [exact Hd|]. split; [exact Hb|].
  destruct Hna as (_ & _ & _ & _ & H).
  refine (H long_name _ eq_refl eq_refl eq_refl eq_refl). discriminate.
Defined.

(** C3 as stated fails: under Biopython "1.68" the leaf name of 46
    characters of the example is written out truncated. *)
Lemma long_leaf_name_truncated :
  Py.len long_name = 46 /\
  Py.str_lt "1.68" "1.69" = true /\
  map (fun c => name (fst c)) (find_clades example_small_tree)
  = [Some "root"; Some long_name; Some "B"] /\
  match decorate_tree "1.68" example_small_tree with
  | Some t' =>
      map (fun c => name (fst c)) (find_clades t')
      = [Some "root"; Some "A/Brisbane/10/2007|CY039079|2007-02_000"; Some "B"]
  | None => False
  end /\
  exists out,
    main example_engine "1.68" example_argv example_files = Finished out /\
    exists t', last out = Some (WriteTree t' "H3N2_timetree.nexus") /\
      map (fun c => name (fst c)) (find_clades t')
      <> map (fun c => name (fst c)) (find_clades example_tree).
Proof.
  repeat split; try reflexivity.
  eexists. split; [vm_compute; reflexivity|].
  eexists. split; [reflexivity|]. cbn. discriminate.
Qed.

(** C10, as the script behaves: the loop keeps the shape of the tree
    and takes the clades one by one.  A clade without parent is left as
    it is.  Any other clade gets [confidence = None]; its comment
    becomes the list of its mutations when there is one and is left as
    it is otherwise; branch length, parent and mutations are left as
    they are; the name is left as it is, except for a leaf with a name
    of more than 40 characters under a Biopython below "1.69", whose
    name becomes its first 35 characters, an underscore and the number
    of the leaves renamed before it.  The loop completes when every
    leaf that has a parent has a name. *)
Theorem decoration_frame bioversion t :
  named_leaves t ->
  exists t', decorate_tree bioversion t = Some t' /\
    shape_of t' = shape_of t /\
    length (find_clades t') = length (find_clades t) /\
    forall i a, find_clades t !! i = Some a ->
      exists b, find_clades t' !! i = Some b /\
        decorated bioversion
          (count_renamed bioversion (firstn i (find_clades t))) a b.
Proof. exact (decorate_tree_lookup bioversion t). Qed.

Lemma example_tree_named : named_leaves example_tree.
Proof.
  intros n Hin _. cbn in Hin.
  repeat (destruct Hin as [Hin|Hin]; [injection Hin as <-; discriminate|]).
  contradiction.
Qed.

Lemma decoration_frame_witness :
  exists t' b,
    decorate_tree "1.68" example_tree = Some t' /\
    shape_of t' = shape_of example_tree /\
    find_clades t' !! 4%nat = Some b /\
    confidence (fst b) = None /\
    comment (fst b) = None /\
    name (fst b) = Some (truncated_name long_name 1).
Proof.
  destruct (decoration_frame "1.68" example_tree example_tree_named)
    as (t' & Hd & Hs & _ & Hi).
  destruct (Hi 4%nat _ eq_refl) as ([n' term'] & Hb & _ & _ & Hf & Hna).
  exists t', (n', term'). split; [exact Hd|]. split; [exact Hs|].
  split; [exact Hb|].
  destruct (Hf ltac:(discriminate)) as (Hc & _ & Hm & _).
  split; [exact Hc|]. split; [exact (Hm eq_refl)|].
  destruct Hna as (_ & _ & _ & _ & H).
  refine (H long_name _ eq_refl eq_refl eq_refl eq_refl). discriminate.
Defined.

(** C10 as stated fails: the pass also changes the field [name]. *)
Lemma decoration_changes_name :
  match decorate_tree "1.68" example_tree with
  | Some t' =>
      match find_clades example_tree, find_clades t' with
      | _ :: (n, terminal) :: _, _ :: (n', _) :: _ =>
          terminal = true /\ up n = Some 0%nat /\
          name n = Some long_name /\
          name n' = Some "A/Brisbane/10/2007|CY039079|2007-02_000" /\
          name n' <> name n
      | _, _ => False
      end
  | None => False
  end.
Proof.
  cbn. repeat split; discriminate.
Qed.

(** ** The engine: polytomies *)

Lemma tree_ind' (P : Engine.tree -> Prop) :
  (forall n cs, Forall P cs -> P (Engine.Tree n cs)) -> forall t, P t.
Proof.
  intros H. fix IH 1. intros [n cs]. apply H.
  induction cs as [|c r IHr]; constructor; [apply IH | exact IHr].
Qed.

















(** ** The engine: branch lengths *)

(** Sequence reconstruction keeps the tree and its branch lengths. *)
Lemma reconstruct_keeps f t : forall place,
  Forall2 same_branch (Engine.nodes t) (Engine.nodes (Engine.reconstruct f place t))
  /\ Engine.shape_of (Engine.reconstruct f place t) = Engine.shape_of t.
Proof.
  induction t as [n cs IH] using tree_ind'. intros place.
  cbn [Engine.reconstruct Engine.nodes Engine.shape_of].
  match goal with
  | |- context [(fix children (i : nat) (cs : list Engine.tree) {struct cs} := _) 0%nat cs] =>
      set (children := (fix children (i : nat) (cs : list Engine.tree) {struct cs}
                          : list Engine.tree := _))
  end.
  assert (H : forall i,
    Forall2 same_branch (flat_map Engine.nodes cs)
                        (flat_map Engine.nodes (children i cs))
    /\ map Engine.shape_of (children i cs) = map Engine.shape_of cs).
  { clear n. induction IH as [|c r Hc Hr IHr]; intros i; [split; constructor|].
    cbn [children flat_map map]. fold children.
    destruct (Hc (place ++ [i])) as [H1 H2]. destruct (IHr (S i)) as [H3 H4].
    split; [now apply Forall2_app|]. now rewrite H2, H4. }
  destruct (H 0%nat) as [H1 H2]. split.
  - constructor; [|exact H1]. repeat split.
  - now rewrite H2.
Qed.

(** Re-estimation gives every branch the length re-estimated for it and
    changes nothing else. *)
Lemma reoptimize_branches opt t : forall parent,
  Forall2 (reestimated opt) (Engine.branches parent t)
          (Engine.nodes (Engine.reoptimize opt parent t))
  /\ Engine.shape_of (Engine.reoptimize opt parent t) = Engine.shape_of t.
Proof.
  induction t as [n cs IH] using tree_ind'. intros parent.
  cbn [Engine.reoptimize Engine.nodes Engine.branches Engine.shape_of].
  assert (H : forall s,
    Forall2 (reestimated opt) (flat_map (Engine.branches s) cs)
            (flat_map Engine.nodes (map (Engine.reoptimize opt s) cs))
    /\ map Engine.shape_of (map (Engine.reoptimize opt s) cs)
       = map Engine.shape_of cs).
  { intros s. clear n. induction IH as [|c r Hc Hr IHr]; [split; constructor|].
    cbn [flat_map map]. destruct (Hc s) as [H1 H2]. destruct IHr as [H3 H4].
    split; [now apply Forall2_app|]. now rewrite H2, H4. }
  destruct (H (Some (Engine.sequence n))) as [H1 H2]. split.
  - constructor; [|exact H1]. unfold reestimated.
    cbn [Engine.name Engine.date Engine.sequence Engine.mutations
         Engine.branch_length].
    destruct parent; repeat split.
  - now rewrite H2.
Qed.

Lemma same_branch_lengths l l' :
  Forall2 same_branch l l' ->
  map Engine.branch_length l' = map Engine.branch_length l.
Proof.
  induction 1 as [|n n' l l' (_ & H & _) _ IH]; [reflexivity|].
  cbn [map]. now rewrite H, IH.
Qed.

(** ** The engine: iterations *)

Section EngineProperties.

Context {model : Type}.
Variable stg : Engine.stages model.

Lemma iterate_spec a left : forall i st,
  let r := Engine.iterate stg a left i st in
  (i <= Engine.iterations r <= i + left)%nat /\
  (1 <= left -> i + 1 <= Engine.iterations r)%nat /\
  (Engine.outcome r = Engine.MAX_ITER_REACHED ->
   Engine.iterations r = (i + left)%nat) /\
  Engine.final r = Engine.after stg a (Engine.iterations r - i) i st.
Proof.
  induction left as [|l IH]; intros i st; cbn [Engine.iterate].
  - cbn. rewrite Nat.sub_diag. repeat split; lia.
  - destruct (Engine.converged stg st _) eqn:Hc.
    + cbn [Engine.iterations Engine.outcome Engine.final].
      replace (S i - i)%nat with 1%nat by lia. cbn.
      repeat split; try lia. discriminate.
    + specialize (IH (S i) (Engine.outer_iteration stg a (S i) st)).
      cbv zeta in IH. destruct IH as (H1 & H2 & H3 & H4).
      split; [lia|]. split; [lia|]. split; [intros H; rewrite (H3 H); lia|].
      rewrite H4.
      replace (Engine.iterations _ - i)%nat
        with (S (Engine.iterations
                   (Engine.iterate stg a l (S i)
                      (Engine.outer_iteration stg a (S i) st)) - S i)) by lia.
      reflexivity.
Qed.

(** C4: the run makes at most [max_iter] outer iterations (2 when
    [--max_iter] is not given), exactly one when [max_iter] is 1;
    whether the tolerance or the cap ends it, it returns the state
    reached by the iterations made. *)
Theorem run_within_max_iter argv p seen (st : Engine.state model) :
  parse_params argv = Some (p, seen) ->
  let r := Engine.run stg (run_args p) st in
  run_max_iter (run_args p) = max_iter p /\
  (given seen "--max_iter" = false -> max_iter p = 2) /\
  (Engine.iterations r <= Z.to_nat (max_iter p))%nat /\
  (0 <= max_iter p -> Z.of_nat (Engine.iterations r) <= max_iter p) /\
  (max_iter p = 1 -> Engine.iterations r = 1%nat) /\
  (Engine.outcome r = Engine.MAX_ITER_REACHED ->
   Engine.iterations r = Z.to_nat (max_iter p)) /\
  Engine.final r = Engine.after stg (run_args p) (Engine.iterations r) 0 st.
Proof.
  intros Hp r.
  pose proof (iterate_spec (run_args p) (Z.to_nat (max_iter p)) 0%nat st) as H.
  cbv zeta in H.
  assert (Hr : r = Engine.iterate stg (run_args p) (Z.to_nat (max_iter p)) 0 st)
    by reflexivity.
  rewrite <- Hr in H. clear Hr.
  destruct H as ((_ & H1) & H2 & H3 & H4). rewrite Nat.sub_0_r in H4.
  split; [reflexivity|]. split; [now apply (max_iter_default argv)|].
  split; [lia|]. split; [lia|]. split; [|split; [|exact H4]].
  - intros H1'. rewrite H1' in *. cbn in H1, H2. lia.
  - intros Ho. now rewrite (H3 Ho).
Qed.


(** C7: the wrapper hands [use_input_branch_length = not
    optimize_branch_length] to the run, and the flag is set exactly
    when [--optimize_branch_length] is given.  In the model of the
    engine, the tree that an outer iteration hands to the clock
    regression has the shape of the tree the iteration started from;
    sequence reconstruction leaves every branch length as it was; when
    the flag is not set the clock regression is given these branch
    lengths, and when it is set every branch has instead the length
    re-estimated for it from the sequences reconstructed at its two
    ends, the other attributes staying those of the reconstruction.
    The rest of the iteration works on the tree so obtained. *)
Theorem branch_lengths_reoptimized_iff_flag argv p seen (st : Engine.state model) :
  parse_params argv = Some (p, seen) ->
  let st1 := Engine.reconstruct_sequences stg st in
  let st2 := Engine.branch_length_stage stg (run_args p) st1 in
  optimize_branch_length p = given seen "--optimize_branch_length" /\
  use_input_branch_length (run_args p) = negb (optimize_branch_length p) /\
  Engine.shape_of (Engine.the_tree st2) = Engine.shape_of (Engine.the_tree st) /\
  Forall2 same_branch (Engine.nodes (Engine.the_tree st))
                      (Engine.nodes (Engine.the_tree st1)) /\
  (given seen "--optimize_branch_length" = false ->
   st2 = st1 /\
   map Engine.branch_length (Engine.nodes (Engine.the_tree st2))
   = map Engine.branch_length (Engine.nodes (Engine.the_tree st))) /\
  (given seen "--optimize_branch_length" = true ->
   Forall2 (reestimated (Engine.optimal_branch_length stg (Engine.the_model st)))
           (Engine.branches None (Engine.the_tree st1))
           (Engine.nodes (Engine.the_tree st2))) /\
  forall i,
    Engine.outer_iteration stg (run_args p) i st =
    Engine.rescale_node_times stg
      (Engine.coalescent_stage stg (run_args p)
         (Engine.resolve_stage (run_args p)
            (Engine.reroot_stage stg (run_args p) i (Engine.fit_clock stg st2)))).
Proof.
  intros Hp st1 st2.
  pose proof (optimize_branch_length_given argv _ _ Hp) as Ho.
  destruct (reconstruct_keeps
              (Engine.reconstructed stg (Engine.the_model st) (Engine.the_tree st))
              (Engine.the_tree st) []) as [Hk Hs].
  assert (He : st2 = if optimize_branch_length p
                     then Engine.reestimate_branch_lengths stg st1 else st1).
  { unfold st2, Engine.branch_length_stage. cbn [run_args use_input_branch_length].
    now destruct (optimize_branch_length p). }
  destruct (reoptimize_branches
              (Engine.optimal_branch_length stg (Engine.the_model st))
              (Engine.the_tree st1) None) as [Hr Hrs].
  split; [exact Ho|]. split; [reflexivity|].
  split; [|split; [exact Hk|split; [|split; [|reflexivity]]]].
  - rewrite He. destruct (optimize_branch_length p).
    + cbn [Engine.reestimate_branch_lengths Engine.the_tree].
      change (Engine.the_model st1) with (Engine.the_model st).
      rewrite Hrs. exact Hs.
    + exact Hs.
  - intros Hg. rewrite Ho, Hg in He. rewrite He. split; [reflexivity|].
    now apply same_branch_lengths.
  - intros Hg. rewrite Ho, Hg in He. rewrite He. exact Hr.
Qed.

End EngineProperties.

Lemma run_within_max_iter_witness :
  Engine.iterations
    (Engine.run example_stages
       (run_args (example_params (example_argv ++ ["--max_iter"; "1"])))
       (example_state example_polytomy)) = 1%nat.
Proof.
  refine (proj1 (proj2 (proj2 (proj2 (proj2
    (run_within_max_iter example_stages
       (example_argv ++ ["--max_iter"; "1"])
       (example_params (example_argv ++ ["--max_iter"; "1"]))
       (example_seen (example_argv ++ ["--max_iter"; "1"]))
       (example_state example_polytomy) eq_refl))))) eq_refl).
Defined.


Lemma branch_lengths_reoptimized_iff_flag_witness :
  Forall2 (reestimated (fun _ _ _ => Py.float_of_decimal false 25 (-2)))
    (Engine.branches None
       (Engine.the_tree
          (Engine.reconstruct_sequences example_stages
             (example_state example_polytomy))))
    (Engine.nodes
       (Engine.the_tree
          (Engine.branch_length_stage example_stages
             (run_args (example_params (example_argv ++ ["--optimize_branch_length"])))
             (Engine.reconstruct_sequences example_stages
                (example_state example_polytomy))))) /\
  map Engine.branch_length
    (Engine.nodes
       (Engine.the_tree
          (Engine.branch_length_stage example_stages
             (run_args (example_params example_argv))
             (Engine.reconstruct_sequences example_stages
                (example_state example_polytomy)))))
  = map Engine.branch_length (Engine.nodes example_polytomy).
Proof.
  split.
  - exact (proj1 (proj2 (proj2 (proj2 (proj2 (proj2
      (branch_lengths_reoptimized_iff_flag example_stages
         (example_argv ++ ["--optimize_branch_length"])
         (example_params (example_argv ++ ["--optimize_branch_length"]))
         (example_seen (example_argv ++ ["--optimize_branch_length"]))
         (example_state example_polytomy) eq_refl)))))) eq_refl).
  - exact (proj2 (proj1 (proj2 (proj2 (proj2 (proj2
      (branch_lengths_reoptimized_iff_flag example_stages example_argv
         (example_params example_argv) (example_seen example_argv)
         (example_state example_polytomy) eq_refl))))) eq_refl)).
Defined.

(** * Further properties *)

(** ** Required options, defaults and [--relax] *)

Lemma parse_params_seen argv p seen :
  parse_params argv = Some (p, seen) ->
  given seen "--aln" = true /\ given seen "--tree" = true /\
  given seen "--dates" = true.
Proof.
  unfold parse_params, parse_args.
  destruct (consume parser argv Idle defaults []) as [[ns s]|]; [|discriminate].
  destruct (forallb _ parser) eqn:Hreq; [|discriminate].
  intros [= _ <-]. cbn in Hreq.
  repeat (apply andb_prop in Hreq as [? Hreq]). auto.
Qed.

Lemma required_parsed argv p seen :
  parse_params argv = Some (p, seen) ->
  (given seen "--aln" = true /\ given seen "--tree" = true /\
   given seen "--dates" = true) /\
  exists a t d, aln p = Some a /\ tree p = Some t /\ dates p = Some d.
Proof.
  intros Hp. pose proof (parse_params_seen _ _ _ Hp) as (Ha & Ht & Hd).
  split; [auto|].
  assert (H1 : given seen "--aln" = true -> aln p <> None).
  { revert Hp. apply (parse_params_inv
      (fun ns s => given s "--aln" = true -> aln ns <> None));
      [|auto|discriminate].
    intros a H. each_option H; auto; conv_cases; auto; discriminate. }
  assert (H2 : given seen "--tree" = true -> tree p <> None).
  { revert Hp. apply (parse_params_inv
      (fun ns s => given s "--tree" = true -> tree ns <> None));
      [|auto|discriminate].
    intros a H. each_option H; auto; conv_cases; auto; discriminate. }
  assert (H3 : given seen "--dates" = true -> dates p <> None).
  { revert Hp. apply (parse_params_inv
      (fun ns s => given s "--dates" = true -> dates ns <> None));
      [|auto|discriminate].
    intros a H. each_option H; auto; conv_cases; auto; discriminate. }
  specialize (H1 Ha). specialize (H2 Ht). specialize (H3 Hd).
  destruct (aln p) as [a|]; [|contradiction].
  destruct (tree p) as [t|]; [|contradiction].
  destruct (dates p) as [d|]; [|contradiction].
  exists a, t, d. auto.
Qed.

(** The three required options are set in every namespace that the
    parser returns, and each was given on the command line. *)
Theorem required_options_set argv p seen :
  parse_params argv = Some (p, seen) ->
  (given seen "--aln" = true /\ given seen "--tree" = true /\
   given seen "--dates" = true) /\
  exists a t d, aln p = Some a /\ tree p = Some t /\ dates p = Some d.
Proof. apply required_parsed. Qed.

Lemma required_options_set_witness :
  exists a t d, aln (example_params example_argv) = Some a /\
                tree (example_params example_argv) = Some t /\
                dates (example_params example_argv) = Some d.
Proof.
  exact (proj2 (required_options_set example_argv (example_params example_argv)
                  (example_seen example_argv) eq_refl)).
Defined.

Lemma relax_parsed argv ns seen :
  parse_args parser defaults argv = Some (ns, seen) ->
  (given seen "--relax" = false /\ relax ns = RelaxBool false) \/
  (given seen "--relax" = true /\ exists l, relax ns = RelaxList l).
Proof.
  apply (parse_args_inv parser
    (fun ns s =>
       (given s "--relax" = false /\ relax ns = RelaxBool false) \/
       (given s "--relax" = true /\ exists l, relax ns = RelaxList l))).
  - intros a H. each_option H; auto; conv_cases; auto.
    right. split; [reflexivity|]. eauto.
  - left. split; reflexivity.
Qed.

Lemma relax_after_parse argv p seen :
  parse_params argv = Some (p, seen) ->
  match relax p with
  | RelaxBool b => b = given seen "--relax"
  | RelaxList l => l <> [] /\ given seen "--relax" = true
  end.
Proof.
  unfold parse_params.
  destruct (parse_args parser defaults argv) as [[ns s]|] eqn:Hp; [|discriminate].
  intros [= <- <-].
  destruct (relax_parsed _ _ _ Hp) as [[Hg Hr]|[Hg [l Hr]]]; rewrite Hr.
  - rewrite Hr. now rewrite Hg.
  - destruct l as [|x l]; [cbn; now rewrite Hg|].
    rewrite Hr. split; [discriminate|exact Hg].
Qed.

Lemma consume_snoc_option o a vs args : forall m ns seen ns1 seen1,
  classify parser o = Opt a None ->
  consume parser args m ns seen = Some (ns1, seen1) ->
  consume parser (args ++ o :: vs) m ns seen =
  match Argparse.take a None ns1 seen1 with
  | Some (m', ns', seen') => consume parser vs m' ns' seen'
  | None => None
  end.
Proof.
  intros m ns seen ns1 seen1 Ho. revert m ns seen.
  induction args as [|s rest IH]; intros m ns seen.
  - cbn [app consume]. rewrite Ho.
    destruct m as [|o' conv'|o' set acc]; try discriminate;
      now intros [= <- <-].
  - cbn [app consume].
    destruct (classify parser s) as [|b e|]; destruct m as [|o' conv'|o' set acc];
      try discriminate.
    + destruct (conv' s); [apply IH|discriminate].
    + apply IH.
    + destruct (Argparse.take b e ns seen) as [[[m1 n1] s1]|]; [apply IH|discriminate].
    + destruct (Argparse.take b e (set acc ns) (o' :: seen)) as [[[m1 n1] s1]|];
        [apply IH|discriminate].
Qed.

Lemma consume_values o set vs : forall acc ns seen,
  Forall (fun v => classify parser v = Arg) vs ->
  consume parser vs (Star o set acc) ns seen = Some (set (acc ++ vs) ns, o :: seen).
Proof.
  induction vs as [|v r IH]; intros acc ns seen H; cbn [consume].
  - now rewrite app_nil_r.
  - inversion H as [|? ? Hv Hr]; subst. rewrite Hv, (IH _ _ _ Hr).
    now rewrite <- app_assoc.
Qed.

(** After lines 46 and 47, [relax] is [False] exactly when [--relax]
    was not given, and otherwise [True] or a list that is not empty; it
    is handed to the engine as it is.  When [--relax] comes last on an
    accepted command line, followed by strings that [argparse] takes as
    arguments, [relax] is [True] if no string follows and the list of
    these strings, as they are, otherwise, whatever was given for
    [--relax] before; nothing else changes. *)
Theorem relax_normal_form argv p seen :
  parse_params argv = Some (p, seen) ->
  (relax p = RelaxBool false <-> given seen "--relax" = false) /\
  match relax p with
  | RelaxBool b => b = given seen "--relax"
  | RelaxList l => l <> [] /\ given seen "--relax" = true
  end /\
  relaxed_clock (run_args p) = relax p /\
  forall vs, Forall (fun v => classify parser v = Arg) vs ->
    parse_params (argv ++ "--relax" :: vs) =
    Some (set_relax (match vs with
                     | [] => RelaxBool true
                     | _ :: _ => RelaxList vs
                     end) p,
          "--relax" :: seen).
Proof.
  intros Hp. pose proof (relax_after_parse _ _ _ Hp) as Hr.
  split; [|split; [exact Hr|split; [reflexivity|]]].
  - destruct (relax p) as [b|l].
    + rewrite <- Hr. split; [now intros [= ->]|now intros ->].
    + destruct Hr as [_ Hg]. rewrite Hg. split; discriminate.
  - intros vs Hvs. revert Hp. unfold parse_params, parse_args.
    destruct (consume parser argv Idle defaults []) as [[ns sn]|] eqn:Hc;
      [|discriminate].
    rewrite (consume_snoc_option "--relax"
               {| option_string := "--relax";
                  act := store_star (fun l => set_relax (RelaxList l));
                  required := false |}
               vs argv Idle defaults [] ns sn eq_refl Hc).
    cbn [Argparse.take act option_string].
    rewrite (consume_values _ _ _ _ _ _ Hvs). cbn [app].
    destruct (forallb _ parser) eqn:Hreq; [|discriminate].
    intros [= <- <-]. cbn [relax set_relax].
    destruct vs as [|v vs']; destruct (relax ns) as [b|[|x l]]; reflexivity.
Qed.

Lemma relax_normal_form_witness :
  parse_params (example_argv ++ "--relax" :: ["1.0"; "0.5"]) =
  Some (set_relax (RelaxList ["1.0"; "0.5"]) (example_params example_argv),
        "--relax" :: example_seen example_argv) /\
  parse_params ((example_argv ++ ["--relax"; "1.0"]) ++ "--relax" :: []) =
  Some (set_relax (RelaxBool true) (example_params (example_argv ++ ["--relax"; "1.0"])),
        "--relax" :: example_seen (example_argv ++ ["--relax"; "1.0"])).
Proof.
  split.
  - refine (proj2 (proj2 (proj2
      (relax_normal_form example_argv (example_params example_argv)
         (example_seen example_argv) eq_refl))) ["1.0"; "0.5"] _).
    repeat constructor.
  - refine (proj2 (proj2 (proj2
      (relax_normal_form (example_argv ++ ["--relax"; "1.0"])
         (example_params (example_argv ++ ["--relax"; "1.0"]))
         (example_seen (example_argv ++ ["--relax"; "1.0"])) eq_refl))) [] _).
    constructor.
Defined.

Lemma reroot_default argv p seen :
  parse_params argv = Some (p, seen) ->
  given seen "--reroot" = false -> reroot p = "best".
Proof.
  apply (parse_params_inv
           (fun ns s => given s "--reroot" = false -> reroot ns = "best")); auto.
  intros a H. each_option H; auto; conv_cases; auto; discriminate.
Qed.

Lemma verbose_default argv p seen :
  parse_params argv = Some (p, seen) ->
  given seen "--verbose" = false -> verbose p = 1.
Proof.
  apply (parse_params_inv
           (fun ns s => given s "--verbose" = false -> verbose ns = 1)); auto.
  intros a H. each_option H; auto; conv_cases; auto; discriminate.
Qed.

Lemma plot_given argv p seen :
  parse_params argv = Some (p, seen) -> plot p = given seen "--plot".
Proof.
  apply (parse_params_inv (fun ns s => plot ns = given s "--plot")); auto.
  intros a H. each_option H; auto; conv_cases; auto.
Qed.

(** An option that is not given keeps the default of its
    [add_argument]; when none of the optional ones is given the engine
    is built with verbosity 1 and run with [root='best'],
    [relaxed_clock=False], [resolve_polytomies=True], [Tc=None],
    [max_iter=2] and [use_input_branch_length=True], and nothing is
    plotted. *)
Theorem default_configuration argv p seen :
  parse_params argv = Some (p, seen) ->
  ((given seen "--reroot" = false -> reroot p = "best") /\
   (given seen "--optimize_branch_length" = false -> optimize_branch_length p = false) /\
   (given seen "--keep_polytomies" = false -> keep_polytomies p = false) /\
   (given seen "--relax" = false -> relax p = RelaxBool false) /\
   (given seen "--max_iter" = false -> max_iter p = 2) /\
   (given seen "--verbose" = false -> verbose p = 1) /\
   (given seen "--Tc" = false -> Tc p = "0.0") /\
   (given seen "--plot" = false -> plot p = false)) /\
  ((forall o, In o optional_options -> given seen o = false) ->
   run_args p =
   {| root := "best"; relaxed_clock := RelaxBool false;
      resolve_polytomies := true; run_Tc := TcNone; run_max_iter := 2;
      use_input_branch_length := true |} /\
   verbose p = 1 /\ plot p = false).
Proof.
  intros Hp.
  assert (H : (given seen "--reroot" = false -> reroot p = "best") /\
   (given seen "--optimize_branch_length" = false -> optimize_branch_length p = false) /\
   (given seen "--keep_polytomies" = false -> keep_polytomies p = false) /\
   (given seen "--relax" = false -> relax p = RelaxBool false) /\
   (given seen "--max_iter" = false -> max_iter p = 2) /\
   (given seen "--verbose" = false -> verbose p = 1) /\
   (given seen "--Tc" = false -> Tc p = "0.0") /\
   (given seen "--plot" = false -> plot p = false)).
  { split; [now apply (reroot_default argv)|].
    split; [intros <-; now apply (optimize_branch_length_given argv)|].
    split; [intros <-; now apply (keep_polytomies_given argv)|].
    split.
    { intros Hg. pose proof (relax_after_parse _ _ _ Hp) as Hr.
      destruct (relax p) as [b|l]; [now rewrite Hr, Hg|].
      destruct Hr as [_ Hr]. congruence. }
    split; [now apply (max_iter_default argv)|].
    split; [now apply (verbose_default argv)|].
    split; [now apply (Tc_default argv)|].
    intros <-. now apply (plot_given argv). }
  split; [exact H|]. intros Hnone.
  destruct H as (H1 & H2 & H3 & H4 & H5 & H6 & H7 & H8).
  unfold run_args.
  rewrite H1, H2, H3, H4, H5, H6, H7, H8
    by (apply Hnone; unfold optional_options; cbn; tauto).
  repeat split.
Qed.

Lemma default_configuration_witness :
  run_args (example_params example_argv) =
  {| root := "best"; relaxed_clock := RelaxBool false;
     resolve_polytomies := true; run_Tc := TcNone; run_max_iter := 2;
     use_input_branch_length := true |} /\
  verbose (example_params example_argv) = 1 /\
  plot (example_params example_argv) = false.
Proof.
  refine (proj2 (default_configuration example_argv (example_params example_argv)
                   (example_seen example_argv) eq_refl) _).
  intros o Ho. cbn in Ho.
  repeat (destruct Ho as [<-|Ho]; [reflexivity|]). contradiction.
Defined.

(** ** Strings *)

Lemma str_app_cons x a b : String x a +:+ b = String x (a +:+ b).
Proof. reflexivity. Qed.

Lemma str_app_nil_l b : "" +:+ b = b.
Proof. reflexivity. Qed.

Lemma str_app_assoc a b c : (a +:+ b) +:+ c = a +:+ (b +:+ c).
Proof.
  induction a as [|x a IH]; [reflexivity|].
  rewrite !str_app_cons. now rewrite IH.
Qed.

Lemma str_app_nil_r a : a +:+ "" = a.
Proof.
  induction a as [|x a IH]; [reflexivity|].
  rewrite str_app_cons. now rewrite IH.
Qed.

Lemma contains_app c a b :
  Argparse.contains c (a +:+ b) = Argparse.contains c a || Argparse.contains c b.
Proof.
  induction a as [|x a IH]; [reflexivity|].
  rewrite str_app_cons. cbn [Argparse.contains]. rewrite IH. now rewrite orb_assoc.
Qed.

Lemma split_nonempty c s : Py.split c s <> [].
Proof.
  destruct s as [|x s]; cbn; [discriminate|].
  destruct (Ascii.eqb x c); [discriminate|].
  destruct (Py.split c s); discriminate.
Qed.

Lemma split_no_sep c s : Argparse.contains c s = false -> Py.split c s = [s].
Proof.
  induction s as [|x s IH]; cbn; [reflexivity|].
  intros H. apply orb_false_elim in H as [Hx Hs].
  rewrite Ascii.eqb_sym, Hx. now rewrite (IH Hs).
Qed.

Lemma split_app c a b :
  Py.split c (a +:+ String c b) = Py.split c a ++ Py.split c b.
Proof.
  induction a as [|x a IH].
  - rewrite str_app_nil_l. cbn [Py.split]. now rewrite Ascii.eqb_refl.
  - rewrite str_app_cons. cbn [Py.split].
    rewrite IH. destruct (Ascii.eqb x c); [reflexivity|].
    pose proof (split_nonempty c a) as Hne.
    destruct (Py.split c a) as [|h t]; [contradiction|reflexivity].
Qed.

(** Joining the fields again gives the string back. *)
Lemma join_split c s : Py.join (String c "") (Py.split c s) = s.
Proof.
  induction s as [|x s IH]; [reflexivity|]. cbn [Py.split].
  pose proof (split_nonempty c s) as Hne.
  destruct (Ascii.eqb_spec x c) as [->|Hx].
  - destruct (Py.split c s) as [|h t]; [contradiction|].
    change (Py.join (String c "") ("" :: h :: t))
      with ("" +:+ String c "" +:+ Py.join (String c "") (h :: t)).
    rewrite IH. reflexivity.
  - destruct (Py.split c s) as [|h t]; [contradiction|].
    destruct t as [|h2 t].
    + cbn in *. now rewrite IH.
    + change (Py.join (String c "") (String x h :: h2 :: t))
        with (String x (h +:+ String c "" +:+ Py.join (String c "") (h2 :: t))).
      change (Py.join (String c "") (h :: h2 :: t))
        with (h +:+ String c "" +:+ Py.join (String c "") (h2 :: t)) in IH.
      now rewrite IH.
Qed.

Lemma contains_lstrip c s :
  Argparse.contains c s = false -> Argparse.contains c (Py.lstrip s) = false.
Proof.
  induction s as [|x s IH]; cbn; [reflexivity|].
  intros H. destruct (Py.is_space x); [|exact H].
  apply orb_false_elim in H as [_ Hs]. now apply IH.
Qed.

Lemma contains_rstrip c s :
  Argparse.contains c s = false -> Argparse.contains c (Py.rstrip s) = false.
Proof.
  induction s as [|x s IH]; cbn; [reflexivity|].
  intros H. apply orb_false_elim in H as [Hx Hs]. specialize (IH Hs).
  destruct (Py.rstrip s) as [|y r].
  - destruct (Py.is_space x); cbn; [reflexivity|now rewrite Hx].
  - cbn [Argparse.contains]. rewrite Hx. exact IH.
Qed.

Lemma contains_strip c s :
  Argparse.contains c s = false -> Argparse.contains c (Py.strip s) = false.
Proof. intros H. now apply contains_rstrip, contains_lstrip. Qed.

Lemma rstrip_cons x s :
  Py.rstrip (String x s) =
  match Py.rstrip s with
  | EmptyString => if Py.is_space x then EmptyString else String x EmptyString
  | r => String x r
  end.
Proof. reflexivity. Qed.

(** [float] and [int] do not see white space around their argument. *)
Lemma rstrip_app a b :
  Py.rstrip b <> "" -> Py.rstrip (a +:+ b) = a +:+ Py.rstrip b.
Proof.
  intros Hb. induction a as [|x a IH]; [reflexivity|].
  rewrite !str_app_cons, rstrip_cons, IH.
  destruct (a +:+ Py.rstrip b) eqn:Ha; [|reflexivity].
  destruct a; [cbn in Ha; contradiction|discriminate].
Qed.

Lemma lstrip_app a b :
  a <> "" -> Py.lstrip a = a -> Py.lstrip (a +:+ b) = a +:+ b.
Proof.
  destruct a as [|x a]; [contradiction|]. intros _.
  rewrite str_app_cons. cbn [Py.lstrip].
  destruct (Py.is_space x) eqn:Hx; [|reflexivity].
  intros H. exfalso.
  assert (Hl : forall s, (String.length (Py.lstrip s) <= String.length s)%nat).
  { induction s as [|y s IHs]; cbn; [lia|]. destruct (Py.is_space y); cbn; lia. }
  specialize (Hl a). rewrite H in Hl. cbn in Hl. lia.
Qed.

(** ** The dates *)

Lemma parse_date_line_entry d line :
  parse_date_line d line =
  match date_entry line with
  | Some (nm, f) => <[nm := f]> d
  | None => d
  end.
Proof.
  unfold parse_date_line, date_entry.
  destruct (Py.slice_to 2 (Py.split "," (Py.strip line))) as [|nm [|dt [|x r]]];
    try reflexivity.
  destruct (Py.float_of_string dt); reflexivity.
Qed.

Lemma parse_dates_snoc l line :
  parse_dates (l ++ [line]) = parse_date_line (parse_dates l) line.
Proof. unfold parse_dates. now rewrite fold_left_app. Qed.

(** A line without a comma (an empty line, a title) gives no date and
    takes none away. *)
Theorem line_without_comma_skipped line :
  Argparse.contains "," line = false ->
  date_entry line = None /\
  (forall d, parse_date_line d line = d) /\
  forall before after,
    parse_dates (before ++ line :: after) = parse_dates (before ++ after).
Proof.
  intros H. apply (contains_strip "," line) in H.
  assert (He : date_entry line = None)
    by (unfold date_entry; now rewrite (split_no_sep _ _ H)).
  assert (Hd : forall d, parse_date_line d line = d)
    by (intros d; now rewrite parse_date_line_entry, He).
  repeat split; auto.
  intros before after. rewrite !parse_dates_app. cbn [fold_left]. now rewrite Hd.
Qed.

Lemma line_without_comma_skipped_witness :
  parse_dates (["A/Boston/2012,2012.15"] ++ "  " :: ["A/Oslo/2013, 2013.5 "])
  = parse_dates (["A/Boston/2012,2012.15"] ++ ["A/Oslo/2013, 2013.5 "]).
Proof.
  exact (proj2 (proj2 (line_without_comma_skipped "  " eq_refl)) _ _).
Defined.

Lemma not_names_line nm line d :
  ~ names nm line -> parse_date_line d line !! nm = d !! nm.
Proof.
  intros Hn. rewrite parse_date_line_entry.
  destruct (date_entry line) as [[nm' f]|] eqn:He; [|reflexivity].
  apply lookup_insert_ne. intros ->. apply Hn. now exists f.
Qed.

Lemma not_names_lines nm lines : forall d,
  Forall (fun l => ~ names nm l) lines ->
  fold_left parse_date_line lines d !! nm = d !! nm.
Proof.
  induction lines as [|l r IH]; intros d H; [reflexivity|].
  inversion H as [|? ? Hl Hr]; subst. cbn [fold_left].
  rewrite (IH _ Hr). now apply not_names_line.
Qed.

(** The date of a sample is the one given by the last line that names
    it; a sample has no date exactly when no line names it. *)
Theorem date_of_last_line lines nm :
  (forall before line after f,
     lines = before ++ line :: after ->
     date_entry line = Some (nm, f) ->
     Forall (fun l => ~ names nm l) after ->
     parse_dates lines !! nm = Some f) /\
  (parse_dates lines !! nm = None <-> Forall (fun l => ~ names nm l) lines).
Proof.
  split.
  - intros before line after f -> He Ha.
    rewrite parse_dates_app. cbn [fold_left].
    rewrite (not_names_lines _ _ _ Ha), parse_date_line_entry, He.
    apply lookup_insert_eq.
  - induction lines as [|line r IH] using rev_ind.
    + split; [constructor|reflexivity].
    + rewrite parse_dates_snoc, Forall_app.
      rewrite parse_date_line_entry.
      destruct (date_entry line) as [[nm' f]|] eqn:He.
      * destruct (decide (nm' = nm)) as [->|Hne].
        -- rewrite lookup_insert_eq. split; [discriminate|].
           intros [_ Hl]. inversion Hl as [|? ? Hn _]; subst.
           exfalso. apply Hn. now exists f.
        -- rewrite lookup_insert_ne by exact Hne. rewrite IH.
           split; [intros H; split; [exact H|]|tauto].
           constructor; [|constructor]. intros [f' Hf]. congruence.
      * rewrite IH. split; [intros H; split; [exact H|]|tauto].
        constructor; [|constructor]. intros [f' Hf]. congruence.
Qed.

Lemma date_of_last_line_witness :
  parse_dates (["A,2011.5"] ++ "A,2012.15" :: ["B,2013.5"]) !! "A"
  = Some (S754_finite false 8849529287317914 (-42)).
Proof.
  refine (proj1 (date_of_last_line _ "A") ["A,2011.5"] "A,2012.15" ["B,2013.5"]
            _ eq_refl eq_refl _).
  constructor; [|constructor]. intros [f Hf]. discriminate Hf.
Defined.

(** A line [name,date] gives the date to [name] when [float] reads
    what [line.strip()] leaves of the date, that is the date without
    the white space at the end of the line (of which the separators 28
    to 31 are part, though [float] itself refuses them).  The name is
    taken as it is, up to the comma. *)
Theorem well_formed_line_recorded nm date f d :
  Argparse.contains "," nm = false ->
  Py.lstrip nm = nm ->
  Argparse.contains "," date = false ->
  Py.float_of_string (Py.rstrip date) = Some f ->
  date_entry (nm +:+ "," +:+ date) = Some (nm, f) /\
  parse_date_line d (nm +:+ "," +:+ date) = <[nm := f]> d /\
  forall before,
    parse_dates (before ++ [nm +:+ "," +:+ date]) !! nm = Some f.
Proof.
  intros Hn Hl Hd Hf.
  assert (Hr : Py.rstrip date <> "").
  { intros Hr. rewrite Hr in Hf. discriminate Hf. }
  assert (Hs : Py.strip (nm +:+ "," +:+ date) = nm +:+ "," +:+ Py.rstrip date).
  { unfold Py.strip.
    assert (Hls : Py.lstrip (nm +:+ "," +:+ date) = nm +:+ "," +:+ date).
    { destruct nm as [|x nm]; [reflexivity|]. now apply lstrip_app. }
    rewrite Hls. rewrite rstrip_app.
    - f_equal. change ("," +:+ date) with (String "," date). rewrite rstrip_cons.
      destruct (Py.rstrip date); [contradiction|reflexivity].
    - change ("," +:+ date) with (String "," date). rewrite rstrip_cons.
      destruct (Py.rstrip date); [contradiction|discriminate]. }
  assert (He : date_entry (nm +:+ "," +:+ date) = Some (nm, f)).
  { unfold date_entry. rewrite Hs.
    change ("," +:+ Py.rstrip date) with (String "," (Py.rstrip date)).
    rewrite split_app, (split_no_sep _ _ Hn),
      (split_no_sep _ _ (contains_rstrip _ _ Hd)).
    cbn [app Py.slice_to firstn]. now rewrite Hf. }
  split; [exact He|].
  split; [now rewrite parse_date_line_entry, He|].
  intros before. rewrite parse_dates_snoc, parse_date_line_entry, He.
  apply lookup_insert_eq.
Qed.

Lemma well_formed_line_recorded_witness :
  date_entry ("A/Oslo/2013" +:+ "," +:+ " 2013.5 ")
  = Some ("A/Oslo/2013", Py.float_of_decimal false 20135 (-1)).
Proof.
  exact (proj1 (well_formed_line_recorded "A/Oslo/2013" " 2013.5 "
                  (Py.float_of_decimal false 20135 (-1)) ∅
                  eq_refl eq_refl eq_refl eq_refl)).
Defined.

(** ** The value of [Tc] *)

(** What the engine can receive as [Tc]: [None]; "opt" or "skyline",
    only when given exactly so; or the number that [float] reads, only
    when it is not below [1e-5], hence never zero or negative.  Every
    value that [float] reads as zero or negative gives [None]. *)
Theorem Tc_values s :
  (forall x, Py.float_of_string s = Some x ->
             SFleb x (S754_zero false) = true -> parse_Tc s = TcNone) /\
  (forall y, parse_Tc s = TcFloat y ->
             Py.float_of_string s = Some y /\
             Py.float_lt y Py.float_1e_5 = false /\
             SFleb y (S754_zero false) = false) /\
  (forall t, parse_Tc s = TcStr t ->
             t = s /\ (s = "opt" \/ s = "skyline") /\
             Py.float_of_string s = None).
Proof.
  assert (Hle : forall x, SFleb x (S754_zero false) = true ->
                          Py.float_lt x Py.float_1e_5 = true).
  { intros x. unfold Py.float_lt, Py.float_1e_5, SFltb, SFleb, SFcompare.
    destruct x as [sg|sg| |sg m e]; try destruct sg;
      try reflexivity; try discriminate. }
  unfold parse_Tc. split; [|split].
  - intros x -> Hx. now rewrite (Hle x Hx).
  - intros y. destruct (Py.float_of_string s) as [x|].
    + destruct (Py.float_lt x Py.float_1e_5) eqn:Hlt; [discriminate|].
      intros [= <-]. split; [reflexivity|]. split; [exact Hlt|].
      destruct (SFleb x (S754_zero false)) eqn:H0; [|reflexivity].
      rewrite (Hle x H0) in Hlt. discriminate.
    + destruct (Py.str_in s _); discriminate.
  - intros t. destruct (Py.float_of_string s) as [x|].
    + destruct (Py.float_lt x Py.float_1e_5); discriminate.
    + destruct (Py.str_in s ["opt"; "skyline"]) eqn:Hin; [|discriminate].
      intros [= <-]. split; [reflexivity|]. split; [|reflexivity].
      cbn in Hin. rewrite orb_false_r in Hin.
      apply orb_prop in Hin as [H|H]; apply String.eqb_eq in H; auto.
Qed.

Lemma Tc_values_witness : parse_Tc " -3 " = TcNone.
Proof.
  exact (proj1 (Tc_values " -3 ") (Py.float_of_decimal true 3 0) eq_refl eq_refl).
Defined.

(** ** The report, the names of the files and the outcome *)

Lemma Tc_is_skyline_eqb s : Tc_is_skyline (parse_Tc s) = String.eqb s "skyline".
Proof.
  unfold parse_Tc. destruct (Py.float_of_string s) as [x|] eqn:Hf.
  - assert (Hs : String.eqb s "skyline" = false).
    { destruct (String.eqb_spec s "skyline") as [->|]; [|reflexivity].
      discriminate Hf. }
    rewrite Hs. now destruct (Py.float_lt x Py.float_1e_5).
  - cbn [Py.str_in existsb]. rewrite orb_false_r.
    destruct (String.eqb_spec s "opt") as [->|Hopt]; [reflexivity|].
    cbn [orb]. destruct (String.eqb s "skyline") eqn:Hs; cbn; now rewrite ?Hs.
Qed.

Section FurtherScriptProperties.

Context {TT exn alignment : Type}.
Variable E : engine TT exn alignment.
Variable bioversion : string.

(** The report is the heading and the model, the clock, and then the
    skyline exactly when [--Tc] is the string "skyline", letter for
    letter; for every other value, also "opt", the report has these
    three items only. *)
Theorem report_items argv p seen myTree :
  parse_params argv = Some (p, seen) ->
  report E p (run_Tc (run_args p)) myTree =
  [Printed (newline +:+ "Inferred GTR model:"); Printed (gtr E myTree);
   Printed (date2dist E myTree)]
  ++ (if String.eqb (Tc p) "skyline"
      then Printed "inferred skyline assuming 50 generations per year:"
           :: skyline_rows (fst (skyline_inferred E 50 myTree))
                           (snd (skyline_inferred E 50 myTree))
      else []).
Proof.
  intros Hp. unfold report. rewrite (parsed_infer_gtr _ _ _ Hp).
  cbn [run_args run_Tc]. rewrite Tc_is_skyline_eqb. reflexivity.
Qed.

End FurtherScriptProperties.

Lemma report_items_witness :
  report example_engine (example_params (example_argv ++ ["--Tc"; "opt"]))
    (run_Tc (run_args (example_params (example_argv ++ ["--Tc"; "opt"]))))
    example_tree
  = [Printed (newline +:+ "Inferred GTR model:"); Printed "JC69"; Printed "rate"].
Proof.
  exact (report_items example_engine (example_argv ++ ["--Tc"; "opt"])
           (example_params (example_argv ++ ["--Tc"; "opt"]))
           (example_seen (example_argv ++ ["--Tc"; "opt"]))
           example_tree eq_refl).
Defined.

(** ** The names of the files written *)

Lemma file_name_plain f : Argparse.contains "/" f = false -> file_name f = f.
Proof. intros H. unfold file_name. now rewrite (split_no_sep _ _ H). Qed.

Lemma file_name_dir dir f :
  Argparse.contains "/" f = false -> file_name (dir +:+ String "/" f) = f.
Proof.
  intros H. unfold file_name.
  rewrite split_app, (split_no_sep _ _ H). apply last_last.
Qed.

Lemma stem_of_file stem ext :
  Argparse.contains "." ext = false ->
  Py.join "." (List.removelast (Py.split "." (stem +:+ String "." ext))) = stem.
Proof.
  intros H. rewrite split_app, (split_no_sep _ _ H), removelast_last.
  apply join_split.
Qed.

(** The base name of a path is its file name without the last
    extension: directories are dropped and dots inside the stem are
    kept.  So the alignment goes to [<stem>_ancestral.fasta] and the
    tree to [<stem>_timetree.nexus] in the current directory. *)
Theorem base_name_drops_directory_and_extension dir stem ext :
  Argparse.contains "/" stem = false ->
  Argparse.contains "/" ext = false ->
  Argparse.contains "." ext = false ->
  base_name (dir +:+ "/" +:+ stem +:+ "." +:+ ext) = stem /\
  base_name (stem +:+ "." +:+ ext) = stem.
Proof.
  intros Hs He Hd.
  assert (Hf : Argparse.contains "/" (stem +:+ String "." ext) = false).
  { rewrite contains_app, Hs. cbn. exact He. }
  unfold base_name. split.
  - change ("/" +:+ stem +:+ "." +:+ ext) with (String "/" (stem +:+ String "." ext)).
    rewrite (file_name_dir _ _ Hf). now apply stem_of_file.
  - change ("." +:+ ext) with (String "." ext).
    rewrite (file_name_plain _ Hf). now apply stem_of_file.
Qed.

Lemma base_name_drops_directory_and_extension_witness :
  base_name ("../data/run.1" +:+ "/" +:+ "H3N2.aligned" +:+ "." +:+ "fasta")
  = "H3N2.aligned".
Proof.
  exact (proj1 (base_name_drops_directory_and_extension
                  "../data/run.1" "H3N2.aligned" "fasta" eq_refl eq_refl eq_refl)).
Defined.

(** A file name without a dot has the empty base name: the outputs are
    then [_ancestral.fasta] and [_timetree.nexus], whatever the name. *)
Theorem base_name_without_dot path :
  Argparse.contains "." (file_name path) = false ->
  base_name path = "" /\
  base_name path +:+ "_ancestral.fasta" = "_ancestral.fasta" /\
  base_name path +:+ "_timetree.nexus" = "_timetree.nexus".
Proof.
  intros H. assert (Hb : base_name path = "")
    by (unfold base_name; now rewrite (split_no_sep _ _ H)).
  rewrite Hb. repeat split.
Qed.

Lemma base_name_without_dot_witness : base_name "data.v2/alignment" = "".
Proof. exact (proj1 (base_name_without_dot "data.v2/alignment" eq_refl)). Defined.

(** ** The labels of the plot *)

(** [label_func] gives the empty label for every clade of every tree:
    [30 & x.is_terminal()] is 0, and no count of leaves is below 0.
    In particular it never raises. *)
Theorem label_func_always_empty (t x : Clade) :
  label_func (count_terminals t) x = Some "" /\
  forall leaf_count, 0 <= leaf_count -> label_func leaf_count x = Some "".
Proof.
  assert (H : forall n, 0 <= n -> label_func n x = Some "").
  { intros n Hn. unfold label_func.
    assert (H0 : Z.land 30 (Z.b2z (is_terminal x)) = 0)
      by (destruct (is_terminal x); reflexivity).
    rewrite H0. destruct (Z.ltb_spec n 0); [lia|reflexivity]. }
  split; [apply H; unfold count_terminals; lia|exact H].
Qed.

Lemma label_func_always_empty_witness :
  label_func 2 example_small_tree = Some "".
Proof.
  refine (proj2 (label_func_always_empty example_tree example_small_tree) 2 _).
  discriminate.
Defined.

(** ** When the decoration raises *)

Lemma decorate_node_None bv t n tc :
  decorate_node bv t n tc = None <->
  t = true /\ up n <> None /\ name n = None.
Proof.
  unfold decorate_node. destruct (up n) as [u|].
  - cbn [name set_confidence]. destruct t.
    + destruct (name n) as [nm|].
      * split; [|intros (_ & _ & H); discriminate].
        destruct (_ && _); cbn; destruct (mutations n); discriminate.
      * split; [intros _; repeat split; discriminate|reflexivity].
    + split; [|intros (H & _); discriminate].
      cbn. destruct (mutations n); discriminate.
  - split; [discriminate|]. intros (_ & H & _). contradiction.
Qed.

Lemma decorate_list_None bv l : forall tc,
  decorate_list bv l tc = None <->
  exists n, In (n, true) l /\ up n <> None /\ name n = None.
Proof.
  induction l as [|[n t] r IH]; intros tc; cbn [decorate_list].
  - split; [discriminate|]. intros (n & [] & _).
  - destruct (decorate_node bv t n tc) as [[n' tc1]|] eqn:Hn.
    + destruct (decorate_list bv r tc1) as [[r' tc2]|] eqn:Hr.
      * split; [discriminate|]. intros (m & [Hm|Hm] & Hu & Hnm).
        -- injection Hm as -> ->.
           assert (Hnone : decorate_node bv true m tc = None)
             by (apply decorate_node_None; auto).
           congruence.
        -- assert (Hnone : decorate_list bv r tc1 = None)
             by (apply IH; eauto).
           congruence.
      * split; [|reflexivity]. intros _.
        apply IH in Hr as (m & Hm & H). exists m. split; [now right|exact H].
    + split; [|reflexivity]. intros _.
      apply decorate_node_None in Hn as (-> & Hu & Hnm).
      exists n. split; [now left|auto].
Qed.

(** The decoration raises exactly when some leaf that has a parent has
    no name, whatever the version of Biopython: [len(n.name)] is
    evaluated before the version is looked at. *)
Theorem decoration_raises_iff_unnamed_leaf bioversion t :
  decorate_tree bioversion t = None <->
  exists n, In (n, true) (find_clades t) /\ up n <> None /\ name n = None.
Proof.
  rewrite <- (decorate_list_None bioversion (find_clades t) 0%nat).
  unfold decorate_tree. pose proof (decorate_as_list bioversion t 0%nat) as H.
  destruct (decorate bioversion t 0%nat) as [[t' k]|].
  - destruct H as [-> _]. split; discriminate.
  - rewrite H. tauto.
Qed.

(** ** The counter of the truncated names *)

Lemma decorate_list_counters bv l : forall tc l' tc',
  decorate_list bv l tc = Some (l', tc') ->
  tc' = (tc + count_renamed bv l)%nat /\
  forall i n term n' term',
    l !! i = Some (n, term) -> l' !! i = Some (n', term') ->
    term' = term /\ up n' = up n /\
    if renamed bv (n, term)
    then exists nm, name n = Some nm /\ 40 < Py.len nm /\
           name n' = Some (truncated_name nm (tc + count_renamed bv (firstn i l)))
    else name n' = name n.
Proof.
  induction l as [|[n t] r IH]; intros tc l' tc'; cbn [decorate_list].
  - intros [= <- <-]. split; [unfold count_renamed; cbn; lia|].
    intros i ? ? ? ? H. destruct i; discriminate H.
  - destruct (decorate_node bv t n tc) as [[n1 tc1]|] eqn:Hn; [|discriminate].
    destruct (decorate_list bv r tc1) as [[r' tc2]|] eqn:Hr; [|discriminate].
    intros [= <- <-]. apply decorate_node_counter in Hn as [Hu Hn].
    destruct (IH _ _ _ Hr) as [Htc Hi]. rewrite count_renamed_cons.
    split.
    + destruct (renamed bv (n, t)); [destruct Hn as [_ ->]|destruct Hn as [_ ->]]; lia.
    + intros [|i] m term m' term' Hl Hl'; cbn in Hl, Hl'; cbn [firstn].
      * injection Hl as <- <-. injection Hl' as <- <-.
        split; [reflexivity|]. split; [exact Hu|].
        destruct (renamed bv (n, t)).
        -- destruct Hn as [(nm & H1 & H2 & H3) _]. exists nm.
           unfold count_renamed. cbn [List.filter length]. rewrite Nat.add_0_r. auto.
        -- tauto.
      * destruct (Hi i _ _ _ _ Hl Hl') as (H1 & H2 & H3).
        split; [exact H1|]. split; [exact H2|].
        destruct (renamed bv (m, term)); [|exact H3].
        destruct H3 as (nm & Ha & Hb & Hc). exists nm. split; [exact Ha|].
        split; [exact Hb|]. rewrite Hc. do 2 f_equal.
        rewrite count_renamed_cons.
        destruct (renamed bv (n, t)); [destruct Hn as [_ ->]|destruct Hn as [_ ->]]; lia.
Qed.

(** The counter numbers the renamed leaves from 0 in the order of
    [find_clades()]: the leaf at place [i], when it is renamed, gets
    the number of the renamed leaves before it, the other clades keep
    their names, and the counter ends at the number of renamed
    leaves. *)
Theorem renamed_leaves_numbered bioversion t t' k :
  decorate bioversion t 0%nat = Some (t', k) ->
  k = count_renamed bioversion (find_clades t) /\
  forall i n term n' term',
    find_clades t !! i = Some (n, term) ->
    find_clades t' !! i = Some (n', term') ->
    if renamed bioversion (n, term)
    then exists nm, name n = Some nm /\ 40 < Py.len nm /\
           name n' = Some (truncated_name nm
                             (count_renamed bioversion (firstn i (find_clades t))))
    else name n' = name n.
Proof.
  intros H. pose proof (decorate_as_list bioversion t 0%nat) as Hl.
  rewrite H in Hl. destruct Hl as [Hl _].
  destruct (decorate_list_counters _ _ _ _ _ Hl) as [Hk Hi].
  split; [exact Hk|]. intros i n term n' term' H1 H2.
  destruct (Hi i n term n' term' H1 H2) as (_ & _ & H3). exact H3.
Qed.

Lemma renamed_leaves_numbered_witness :
  2%nat = count_renamed "1.68" (find_clades example_tree).
Proof.
  refine (proj1 (renamed_leaves_numbered "1.68" example_tree _ 2%nat _)).
  vm_compute. reflexivity.
Defined.

(** ** Decimal numerals *)

Lemma digit_char_spec d :
  (d < 10)%N ->
  Py.is_digit (Py.digit_char d) = true /\ Py.digit_val (Py.digit_char d) = d.
Proof.
  intros H.
  assert (Hd : (d = 0 \/ d = 1 \/ d = 2 \/ d = 3 \/ d = 4 \/ d = 5 \/ d = 6
                \/ d = 7 \/ d = 8 \/ d = 9)%N) by lia.
  repeat (destruct Hd as [->|Hd]; [split; reflexivity|]).
  subst. split; reflexivity.
Qed.

Lemma digits_digit a k d rest :
  (d < 10)%N ->
  Py.digits a k (String (Py.digit_char d) rest)
  = Py.digits (a * 10 + d)%N (S k) rest.
Proof.
  intros H. destruct (digit_char_spec d H) as [H1 H2].
  cbn [Py.digits]. now rewrite H1, H2.
Qed.

Lemma digits_of_S f n rest :
  Py.digits_of (S f) n rest =
  if (n <? 10)%N then String (Py.digit_char (n mod 10)) rest
  else Py.digits_of f (n / 10)%N (String (Py.digit_char (n mod 10)) rest).
Proof. reflexivity. Qed.

(** Reading the numeral that [digits_of] writes gives the number back. *)
Lemma digits_digits_of f : forall n rest a k,
  (n < 2 ^ N.of_nat (S f))%N ->
  exists d, (1 <= d)%nat /\
    Py.digits a k (Py.digits_of (S f) n rest)
    = Py.digits (a * 10 ^ N.of_nat d + n)%N (k + d)%nat rest.
Proof.
  induction f as [|f IH]; intros n rest a k Hf;
    rewrite digits_of_S; destruct (N.ltb_spec n 10) as [Hn|Hn].
  - exists 1%nat. split; [lia|].
    rewrite digits_digit by (apply N.mod_lt; lia).
    rewrite N.mod_small by exact Hn.
    change (10 ^ N.of_nat 1)%N with 10%N. f_equal; lia.
  - change (2 ^ N.of_nat 1)%N with 2%N in Hf. lia.
  - exists 1%nat. split; [lia|].
    rewrite digits_digit by (apply N.mod_lt; lia).
    rewrite N.mod_small by exact Hn.
    change (10 ^ N.of_nat 1)%N with 10%N. f_equal; lia.
  - assert (Hlog : (n / 10 < 2 ^ N.of_nat (S f))%N).
    { rewrite (Nat2N.inj_succ (S f)), N.pow_succ_r' in Hf.
      apply N.le_lt_trans with (n / 2)%N.
      - apply N.div_le_compat_l. lia.
      - now apply N.Div0.div_lt_upper_bound. }
    destruct (IH (n / 10)%N (String (Py.digit_char (n mod 10)) rest) a k Hlog)
      as (d & Hd & Heq).
    exists (S d). split; [lia|].
    rewrite Heq.
    rewrite digits_digit by (apply N.mod_lt; lia).
    rewrite Nat2N.inj_succ, N.pow_succ_r'.
    pose proof (N.div_mod n 10 ltac:(lia)). f_equal; lia.
Qed.

Lemma lt_pow2_log2 n : (n < 2 ^ N.of_nat (S (N.to_nat (N.log2 n))))%N.
Proof.
  rewrite Nat2N.inj_succ, N2Nat.id.
  destruct n as [|p]; [reflexivity|].
  apply N.log2_spec. lia.
Qed.

Lemma digits_zeros j : forall k s,
  Py.digits 0 k (Py.zeros j +:+ s) = Py.digits 0 (k + j)%nat s.
Proof.
  induction j as [|j IH]; intros k s.
  - cbn [Py.zeros]. rewrite str_app_nil_l. f_equal. lia.
  - cbn [Py.zeros]. rewrite str_app_cons.
    change "0"%char with (Py.digit_char 0).
    rewrite digits_digit by lia. cbn [N.mul N.add]. rewrite IH. f_equal. lia.
Qed.

(** The counter can be read back from ['%03d' % n]. *)
Lemma digits_fmt_03d n :
  exists d, Py.digits 0 0 (Py.fmt_03d n) = (N.of_nat n, d, "").
Proof.
  unfold Py.fmt_03d, Py.str_of_N. rewrite digits_zeros.
  destruct (digits_digits_of (N.to_nat (N.log2 (N.of_nat n))) (N.of_nat n)
              "" 0%N (0 + (3 - String.length
                 (Py.digits_of (S (N.to_nat (N.log2 (N.of_nat n))))
                    (N.of_nat n) "")))%nat (lt_pow2_log2 _)) as (d & _ & ->).
  cbn [Py.digits N.mul N.add]. eauto.
Qed.

Lemma fmt_03d_inj n m : Py.fmt_03d n = Py.fmt_03d m -> n = m.
Proof.
  intros H. destruct (digits_fmt_03d n) as [d Hn].
  destruct (digits_fmt_03d m) as [e Hm].
  rewrite H, Hm in Hn. injection Hn as Hn _. lia.
Qed.

Lemma digits_of_length fuel : forall d n rest,
  (1 <= d)%nat -> (n < 10 ^ N.of_nat d)%N ->
  (1 + String.length rest <= String.length (Py.digits_of fuel n rest)
   <= d + String.length rest)%nat \/ fuel = 0%nat.
Proof.
  induction fuel as [|f IH]; intros d n rest Hd Hn; [now right|]. left.
  rewrite digits_of_S. destruct (N.ltb_spec n 10) as [H10|H10]; [cbn; lia|].
  destruct d as [|[|d]]; [lia|change (10 ^ N.of_nat 1)%N with 10%N in Hn; lia|].
  assert (Hn' : (n / 10 < 10 ^ N.of_nat (S d))%N).
  { apply N.Div0.div_lt_upper_bound.
    rewrite (Nat2N.inj_succ (S d)), N.pow_succ_r' in Hn. exact Hn. }
  destruct (IH (S d) (n / 10)%N (String (Py.digit_char (n mod 10)) rest)
              ltac:(lia) Hn') as [H | ->]; cbn [Py.digits_of String.length] in *; lia.
Qed.

Lemma str_app_length a b :
  String.length (a +:+ b) = (String.length a + String.length b)%nat.
Proof.
  induction a as [|x a IH]; [reflexivity|].
  rewrite str_app_cons. cbn [String.length]. now rewrite IH.
Qed.

Lemma zeros_length j : String.length (Py.zeros j) = j.
Proof. induction j as [|j IH]; cbn; [reflexivity|now rewrite IH]. Qed.

Lemma fmt_03d_length n :
  (3 <= String.length (Py.fmt_03d n))%nat /\
  (Z.of_nat n < 10000 -> (String.length (Py.fmt_03d n) <= 4)%nat) /\
  (Z.of_nat n < 1000 -> String.length (Py.fmt_03d n) = 3%nat).
Proof.
  unfold Py.fmt_03d, Py.str_of_N. rewrite str_app_length, zeros_length.
  set (s := Py.digits_of _ _ _). split; [lia|]. split; intros Hn.
  - destruct (digits_of_length (S (N.to_nat (N.log2 (N.of_nat n)))) 4
                (N.of_nat n) "" ltac:(lia)) as [H|H];
      [|cbn [String.length] in H|discriminate].
    + change (10 ^ N.of_nat 4)%N with 10000%N. lia.
    + fold s in H. lia.
  - destruct (digits_of_length (S (N.to_nat (N.log2 (N.of_nat n)))) 3
                (N.of_nat n) "" ltac:(lia)) as [H|H];
      [|cbn [String.length] in H|discriminate].
    + change (10 ^ N.of_nat 3)%N with 1000%N. lia.
    + fold s in H. lia.
Qed.

Lemma str_slice_to_length k s :
  String.length (Py.str_slice_to k s) = Nat.min k (String.length s).
Proof.
  revert s. induction k as [|k IH]; intros [|x s]; cbn; auto.
Qed.

Lemma str_app_inj_length a a' b b' :
  String.length a = String.length a' -> a +:+ b = a' +:+ b' -> b = b'.
Proof.
  revert a'. induction a as [|x a IH]; intros [|y a'] Hl H; try discriminate.
  - exact H.
  - rewrite !str_app_cons in H. injection H as _ H. injection Hl as Hl. eauto.
Qed.

Lemma truncated_name_inj nm nm' k k' :
  40 < Py.len nm -> 40 < Py.len nm' ->
  truncated_name nm k = truncated_name nm' k' -> k = k'.
Proof.
  unfold truncated_name, Py.len. intros H1 H2 H.
  apply str_app_inj_length in H.
  - change ("_" +:+ Py.fmt_03d k) with (String "_" (Py.fmt_03d k)) in H.
    change ("_" +:+ Py.fmt_03d k') with (String "_" (Py.fmt_03d k')) in H.
    injection H as H. now apply fmt_03d_inj.
  - rewrite !str_slice_to_length. lia.
Qed.

Lemma truncated_name_length nm k :
  40 < Py.len nm -> Z.of_nat k < 10000 ->
  Py.len (truncated_name nm k) <= 40 /\
  (Z.of_nat k < 1000 -> Py.len (truncated_name nm k) = 39).
Proof.
  unfold truncated_name, Py.len. intros H Hk.
  rewrite !str_app_length, str_slice_to_length.
  destruct (fmt_03d_length k) as (H3 & H4 & H5). specialize (H4 Hk).
  change (String.length "_") with 1%nat.
  split; [lia|]. intros Hk'. rewrite (H5 Hk'). lia.
Qed.

(** ** The truncated names *)

Lemma decorate_tree_Some bv t t' :
  decorate_tree bv t = Some t' -> exists k, decorate bv t 0%nat = Some (t', k).
Proof.
  unfold decorate_tree. destruct (decorate bv t 0%nat) as [[t0 k]|]; [|discriminate].
  intros [= ->]. eauto.
Qed.

Lemma count_renamed_take_lt bv l : forall i j c,
  (i < j)%nat -> l !! i = Some c -> renamed bv c = true ->
  (count_renamed bv (firstn i l) < count_renamed bv (firstn j l))%nat.
Proof.
  induction l as [|c0 r IH]; intros i j c Hij Hi Hc; [destruct i; discriminate|].
  destruct j as [|j]; [lia|]. destruct i as [|i].
  - injection Hi as ->. cbn [firstn]. rewrite count_renamed_cons, Hc.
    unfold count_renamed at 1. cbn. lia.
  - cbn [firstn]. rewrite !count_renamed_cons.
    pose proof (IH i j c ltac:(lia) Hi Hc). lia.
Qed.

Lemma count_renamed_take_le bv l i c :
  l !! i = Some c -> renamed bv c = true ->
  (count_renamed bv (firstn i l) < count_renamed bv l)%nat.
Proof.
  intros Hi Hc. rewrite <- (firstn_all l) at 2.
  apply (count_renamed_take_lt bv l i (length l) c); auto.
  apply lookup_lt_Some in Hi. exact Hi.
Qed.

(** The names that the decoration writes for two different renamed
    leaves are different, as the comment of line 126 intends. *)
Theorem truncated_names_distinct bioversion t t' i j n1 b1 n2 b2 m1 c1 m2 c2 :
  decorate_tree bioversion t = Some t' ->
  i <> j ->
  find_clades t !! i = Some (n1, b1) ->
  find_clades t !! j = Some (n2, b2) ->
  find_clades t' !! i = Some (m1, c1) ->
  find_clades t' !! j = Some (m2, c2) ->
  renamed bioversion (n1, b1) = true ->
  renamed bioversion (n2, b2) = true ->
  name m1 <> name m2.
Proof.
  intros Hd Hij Hi Hj Hi' Hj' Hr1 Hr2.
  destruct (decorate_tree_Some _ _ _ Hd) as [k Hk].
  pose proof (decorate_as_list bioversion t 0%nat) as Hl.
  rewrite Hk in Hl. destruct Hl as [Hl _].
  destruct (decorate_list_counters _ _ _ _ _ Hl) as [_ Hc].
  destruct (Hc i _ _ _ _ Hi Hi') as (_ & _ & H1).
  destruct (Hc j _ _ _ _ Hj Hj') as (_ & _ & H2).
  rewrite Hr1 in H1. rewrite Hr2 in H2.
  destruct H1 as (nm1 & _ & Hlen1 & ->). destruct H2 as (nm2 & _ & Hlen2 & ->).
  intros [= H]. apply truncated_name_inj in H; [|assumption..].
  cbn [Nat.add] in H.
  destruct (Nat.lt_total i j) as [Hlt|[Heq|Hlt]]; [|contradiction|].
  - pose proof (count_renamed_take_lt bioversion _ i j _ Hlt Hi Hr1). lia.
  - pose proof (count_renamed_take_lt bioversion _ j i _ Hlt Hj Hr2). lia.
Qed.

Lemma truncated_names_distinct_witness :
  Some "A/Brisbane/10/2007|CY039079|2007-02_000"
  <> Some "A/Brisbane/10/2007|CY039079|2007-02_001".
Proof.
  refine (truncated_names_distinct "1.68" example_tree _ 1 4
            _ true _ true
            (set_comment (Some (mutations_comment [("A", 12, "G"); ("C", 305, "T")]))
               (set_name (Some "A/Brisbane/10/2007|CY039079|2007-02_000")
                  (set_confidence None
                     {| name := Some long_name; branch_length := Some (S754_zero false);
                        confidence := Some Py.float_1e_5; comment := None;
                        up := Some 0%nat;
                        mutations := [("A", 12, "G"); ("C", 305, "T")] |})))
            true
            (set_name (Some "A/Brisbane/10/2007|CY039079|2007-02_001")
               (set_confidence None
                  {| name := Some long_name; branch_length := Some (S754_zero false);
                     confidence := Some Py.float_1e_5; comment := None;
                     up := Some 2%nat; mutations := [] |}))
            true
            _ _ _ _ _ _ _ _); try reflexivity.
  discriminate.
Defined.

(** Under a Biopython below "1.69", and with at most 10000 renamed
    leaves, every leaf that has a parent has a name of at most 40
    characters after the decoration. *)
Theorem leaf_names_fit_after_decoration bioversion t t' :
  decorate_tree bioversion t = Some t' ->
  Py.str_lt bioversion "1.69" = true ->
  Z.of_nat (count_renamed bioversion (find_clades t)) <= 10000 ->
  forall n', In (n', true) (find_clades t') -> up n' <> None ->
  exists nm, name n' = Some nm /\ Py.len nm <= 40.
Proof.
  intros Hd Hv Hcount n' Hin Hup.
  destruct (decorate_tree_Some _ _ _ Hd) as [k Hk].
  pose proof (decorate_as_list bioversion t 0%nat) as Hl.
  rewrite Hk in Hl. destruct Hl as [Hl _].
  destruct (decorate_list_counters _ _ _ _ _ Hl) as [_ Hc].
  pose proof (decorate_list_length _ _ _ _ _ Hl) as Hsame.
  apply list_elem_of_In, list_elem_of_lookup in Hin as [i Hi'].
  destruct (lookup_lt_is_Some_2 (find_clades t) i) as [[n term] Hi].
  { rewrite <- Hsame. exact (lookup_lt_Some _ _ _ Hi'). }
  destruct (Hc i _ _ _ _ Hi Hi') as (<- & Hu & H).
  destruct (renamed bioversion (n, true)) eqn:Hr.
  - destruct H as (nm & _ & Hlen & ->). eexists. split; [reflexivity|].
    cbn [Nat.add].
    pose proof (count_renamed_take_le bioversion _ i _ Hi Hr).
    apply truncated_name_length; [exact Hlen|lia].
  - rewrite H. rewrite Hu in Hup.
    destruct (name n) as [nm|] eqn:Hn.
    + exists nm. split; [reflexivity|].
      unfold renamed in Hr. cbn [fst snd] in Hr. rewrite Hn in Hr.
      destruct (up n); [|contradiction]. rewrite Hv in Hr. cbn in Hr.
      rewrite andb_true_r in Hr. apply Z.ltb_ge in Hr. exact Hr.
    + exfalso.
      assert (Hnone : decorate_list bioversion (find_clades t) 0%nat = None).
      { apply decorate_list_None. exists n. split; [|auto].
        apply list_elem_of_In, list_elem_of_lookup. eauto. }
      congruence.
Qed.

Lemma leaf_names_fit_after_decoration_witness :
  exists nm,
    name (set_name (Some "A/Brisbane/10/2007|CY039079|2007-02_001")
            (set_confidence None
               {| name := Some long_name; branch_length := Some (S754_zero false);
                  confidence := Some Py.float_1e_5; comment := None;
                  up := Some 2%nat; mutations := [] |})) = Some nm /\
    Py.len nm <= 40.
Proof.
  refine (leaf_names_fit_after_decoration "1.68" example_tree
            (match decorate_tree "1.68" example_tree with
             | Some t' => t'
             | None => example_tree
             end) _ eq_refl _ _ _ _).
  - vm_compute. reflexivity.
  - vm_compute. discriminate.
  - vm_compute. do 4 right. left. reflexivity.
  - discriminate.
Defined.

(** ** The version of Biopython *)

Lemma decorate_ext bv bv' c :
  (forall n term tc, In (n, term) (find_clades c) ->
     decorate_node bv term n tc = decorate_node bv' term n tc) ->
  forall tc, decorate bv c tc = decorate bv' c tc.
Proof.
  induction c as [n cs IH] using Clade_ind'. intros H tc.
  cbn [decorate].
  rewrite <- (H n (is_terminal (mkClade n cs)) tc) by (cbn [find_clades]; now left).
  destruct (decorate_node bv _ n tc) as [[n' tc1]|]; [|reflexivity].
  assert (Hcs : forall m term tc0, In (m, term) (flat_map find_clades cs) ->
            decorate_node bv term m tc0 = decorate_node bv' term m tc0).
  { intros m term tc0 Hin. apply H. cbn [find_clades]. now right. }
  clear H.
  match goal with
  | |- match ?g1 cs tc1 with _ => _ end = match ?g2 cs tc1 with _ => _ end =>
      set (go := g1); set (go' := g2)
  end.
  assert (Hgo : forall tc0, go cs tc0 = go' cs tc0).
  { clear n n' tc tc1. induction IH as [|c r Hc Hr IHr]; intros tc0; [reflexivity|].
    cbn [go go']. fold go. fold go'.
    rewrite Hc by (intros; apply Hcs; cbn [flat_map]; apply in_or_app; now left).
    destruct (decorate bv' c tc0) as [[c' tc']|]; [|reflexivity].
    rewrite IHr by (intros; apply Hcs; cbn [flat_map]; apply in_or_app; now right).
    reflexivity. }
  now rewrite Hgo.
Qed.

(** The version of Biopython matters only through its comparison with
    "1.69", and not at all for a tree in which no leaf has a name of
    more than 40 characters. *)
Theorem version_matters_only_for_long_names bioversion bioversion' t :
  (Py.str_lt bioversion "1.69" = Py.str_lt bioversion' "1.69" ->
   decorate_tree bioversion t = decorate_tree bioversion' t) /\
  ((forall n nm, In (n, true) (find_clades t) -> name n = Some nm ->
                 Py.len nm <= 40) ->
   decorate_tree bioversion t = decorate_tree bioversion' t).
Proof.
  split.
  - intros Hv. unfold decorate_tree. rewrite (decorate_ext bioversion bioversion'); auto.
    intros n term tc _. unfold decorate_node. now rewrite Hv.
  - intros Hshort. unfold decorate_tree.
    rewrite (decorate_ext bioversion bioversion'); auto.
    intros n term tc Hin. unfold decorate_node.
    destruct (up n); [|reflexivity]. cbn [name set_confidence].
    destruct term; [|reflexivity].
    destruct (name n) as [nm|] eqn:Hn; [|reflexivity].
    pose proof (Hshort n nm Hin Hn) as Hle.
    destruct (Z.ltb_spec 40 (Py.len nm)); [lia|reflexivity].
Qed.

Lemma version_matters_only_for_long_names_witness :
  decorate_tree "1.70" example_small_tree = decorate_tree "1.81" example_small_tree.
Proof.
  exact (proj1 (version_matters_only_for_long_names "1.70" "1.81" example_small_tree)
               eq_refl).
Defined.

(** ** An option given again *)


